(** * BusTub buffer pool and extendible hash index: a shallow embedding

  The development follows the four translation units of the repository:
  - [src/buffer/lru_replacer.cpp]                   (module [LRUReplacer])
  - [src/buffer/buffer_pool_manager_instance.cpp]   (module [BufferPoolManagerInstance])
  - [src/buffer/parallel_buffer_pool_manager.cpp]   (module [ParallelBufferPoolManager])
  - [src/container/hash/extendible_hash_table.cpp]  (module [ExtendibleHashTable])

  Member functions become functions on an explicit object state; a
  [Page*] is the index of the frame it points into, so that two pointers
  to the same frame alias the same bytes. *)

From stdpp Require Import base numbers option list gmap fin_maps.

#[local] Set Warnings "-clear-no-such-hyp".

(** Page ids are 32-bit signed integers, kept in [Z]; the allocator only
    ever adds [num_instances_] to a non-negative id, and runs long enough
    to overflow it are outside the model.  Frame ids are indices into the
    frame array and sizes are [size_t]; both are kept in [nat]. *)
Abbreviation page_id_t := Z (only parsing).
Abbreviation frame_id_t := nat (only parsing).

(** Modelled from the spec: the reserved identifier that denotes "no page"
  (declared in the configuration header, which is not among the sources;
  page identifiers proper are non-negative). *)
Definition INVALID_PAGE_ID : Z := (-1)%Z.

(** ** LRU replacer *)

Module LRUReplacer.

(** [lru_] is the [std::list<frame_id_t>]: front = next victim. *)
Record t := mk { lru_ : list frame_id_t; lru_limit_ : nat }.

Definition new (num_pages : nat) : t := mk [] num_pages.

Definition Victim (r : t) : option frame_id_t * t :=
  match lru_ r with
  | [] => (None, r)
  | frame_id :: rest => (Some frame_id, mk rest (lru_limit_ r))
  end.

(** [std::list::remove] erases every element equal to [frame_id]. *)
Definition Pin (frame_id : frame_id_t) (r : t) : t :=
  mk (filter (λ id, id ≠ frame_id) (lru_ r)) (lru_limit_ r).

(** [pop_front] on an empty list is undefined in the source; it can only
    be reached with [lru_limit_ = 0], and the model leaves the list empty. *)
Definition Unpin (frame_id : frame_id_t) (r : t) : t :=
  if bool_decide (frame_id ∈ lru_ r) then r
  else
    let l := if bool_decide (length (lru_ r) = lru_limit_ r)
             then tail (lru_ r) else lru_ r in
    mk (l ++ [frame_id]) (lru_limit_ r).

Definition Size (r : t) : nat := length (lru_ r).

End LRUReplacer.

(** ** Disk manager *)

Module DiskManager.
Section disk.
Context {Data : Type}.

(** Modelled from the spec: the disk manager is an external collaborator
    (its source is not part of the repository files at hand).  [WritePage]
    stores a page image under its identifier, [ReadPage] returns it
    byte-exact; a page that was never written leaves the caller's buffer
    as it is.  [log] records every [WritePage] call in order, so that
    "was written" is observable even when the bytes do not change. *)
Record t := mk { contents : gmap Z Data; log : list (Z * Data) }.

Definition empty : t := mk ∅ [].

Definition WritePage (page_id : page_id_t) (buf : Data) (dm : t) : t :=
  mk (<[page_id := buf]> (contents dm)) (log dm ++ [(page_id, buf)]).

Definition ReadPage (page_id : page_id_t) (buf : Data) (dm : t) : Data :=
  default buf (contents dm !! page_id).

End disk.
Global Arguments t : clear implicits.
End DiskManager.

(** ** Buffer pool manager instance *)

Module BufferPoolManagerInstance.
Section instance.
Context {Data : Type}.
(** The all-zero buffer left by [Page::ResetMemory]. *)
Variable zero : Data.

Record Page := mkPage {
  data_ : Data;
  page_id_ : page_id_t;
  pin_count_ : Z;
  is_dirty_ : bool }.

(** A default-constructed [Page]. *)
Definition blank : Page := mkPage zero INVALID_PAGE_ID 0 false.

(** The disk manager is held by pointer and shared between instances, so
    it is threaded separately from the instance's own members. *)
Record t := mk {
  pool_size_ : nat;
  num_instances_ : Z;
  instance_index_ : Z;
  next_page_id_ : page_id_t;
  pages_ : list Page;
  replacer_ : LRUReplacer.t;
  free_list_ : list frame_id_t;
  page_table_ : gmap Z frame_id_t }.

Definition set_next_page_id (v : page_id_t) (s : t) : t :=
  mk (pool_size_ s) (num_instances_ s) (instance_index_ s) v
     (pages_ s) (replacer_ s) (free_list_ s) (page_table_ s).
Definition set_pages (v : list Page) (s : t) : t :=
  mk (pool_size_ s) (num_instances_ s) (instance_index_ s) (next_page_id_ s)
     v (replacer_ s) (free_list_ s) (page_table_ s).
Definition set_replacer (v : LRUReplacer.t) (s : t) : t :=
  mk (pool_size_ s) (num_instances_ s) (instance_index_ s) (next_page_id_ s)
     (pages_ s) v (free_list_ s) (page_table_ s).
Definition set_free_list (v : list frame_id_t) (s : t) : t :=
  mk (pool_size_ s) (num_instances_ s) (instance_index_ s) (next_page_id_ s)
     (pages_ s) (replacer_ s) v (page_table_ s).
Definition set_page_table (v : gmap Z frame_id_t) (s : t) : t :=
  mk (pool_size_ s) (num_instances_ s) (instance_index_ s) (next_page_id_ s)
     (pages_ s) (replacer_ s) (free_list_ s) v.

(** [pages_[frame_id]].  Indexing past [pool_size_] is undefined in the
    source; every frame id the code produces comes from the free list,
    the replacer or the page table, all below [pool_size_] (see
    [frames_in_range] below).  Out of range the model reads a blank page
    and writes nothing. *)
Definition page_at (s : t) (frame_id : frame_id_t) : Page :=
  default blank (pages_ s !! frame_id).
Definition set_page (frame_id : frame_id_t) (p : Page) (s : t) : t :=
  set_pages (<[frame_id := p]> (pages_ s)) s.

(** The constructor: every frame blank and on the free list, the
    allocator starting at [instance_index]. *)
Definition new (pool_size : nat) (num_instances instance_index : Z) : t :=
  mk pool_size num_instances instance_index instance_index
     (replicate pool_size blank) (LRUReplacer.new pool_size)
     (seq 0 pool_size) ∅.

Definition FlushPgImp (page_id : page_id_t) (s : t) (dm : DiskManager.t Data)
  : bool * t * DiskManager.t Data :=
  match page_table_ s !! page_id with
  | Some frame_id =>
      let page := page_at s frame_id in
      let dm := DiskManager.WritePage page_id (data_ page) dm in
      let page := mkPage (data_ page) (page_id_ page) (pin_count_ page) false in
      (true, set_page frame_id page s, dm)
  | None => (false, s, dm)
  end.

(** The body of the loop in [FlushAllPgsImp]: clear the dirty flag, write
    the frame. *)
Definition flush_entry (acc : t * DiskManager.t Data)
    (entry : page_id_t * frame_id_t) : t * DiskManager.t Data :=
  let '(s, dm) := acc in
  let '(page_id, frame_id) := entry in
  let page := page_at s frame_id in
  (set_page frame_id
     (mkPage (data_ page) (page_id_ page) (pin_count_ page) false) s,
   DiskManager.WritePage page_id (data_ page) dm).

(** The iteration order of the [unordered_map] is unspecified; the model
    walks the entries in the order of [map_to_list]. *)
Definition FlushAllPgsImp (s : t) (dm : DiskManager.t Data)
  : t * DiskManager.t Data :=
  foldl flush_entry (s, dm) (map_to_list (page_table_ s)).

Definition ValidatePageId (page_id : page_id_t) (s : t) : bool :=
  bool_decide ((page_id `mod` num_instances_ s)%Z = instance_index_ s).

(** [ValidatePageId] is an [assert]; it holds on every state built by the
    constructor and the public operations ([allocator_valid] below), so
    the model does not branch on it. *)
Definition AllocatePage (s : t) : page_id_t * t :=
  let next_page_id := next_page_id_ s in
  (next_page_id, set_next_page_id (next_page_id_ s + num_instances_ s)%Z s).

Definition all_pages_pinned (s : t) : bool :=
  forallb (λ i, let page := page_at s i in
                negb (bool_decide (page_id_ page = INVALID_PAGE_ID)
                      || bool_decide (pin_count_ page = 0%Z)))
          (seq 0 (pool_size_ s)).

(** Returns the frame the [Page*] points to and the value stored through
    the [page_id] out-parameter; [None] is [nullptr]. *)
Definition NewPgImp (s : t) (dm : DiskManager.t Data)
  : option (frame_id_t * page_id_t) * t * DiskManager.t Data :=
  if all_pages_pinned s then (None, s, dm) else
  let pick :=
    match free_list_ s with
    | frame_id :: rest => Some (frame_id, set_free_list rest s)
    | [] =>
        match LRUReplacer.Victim (replacer_ s) with
        | (Some frame_id, r) => Some (frame_id, set_replacer r s)
        | (None, _) => None
        end
    end in
  match pick with
  | None => (None, s, dm)
  | Some (frame_id, s) =>
      let page := page_at s frame_id in
      let '(s, dm) :=
        if bool_decide (page_id_ page ≠ INVALID_PAGE_ID) then
          let s := set_page_table (delete (page_id_ page) (page_table_ s)) s in
          if is_dirty_ page
          then let '(_, s, dm) := FlushPgImp (page_id_ page) s dm in (s, dm)
          else (s, dm)
        else (s, dm) in
      let '(new_id, s) := AllocatePage s in
      let s := set_page frame_id (mkPage zero new_id 1 false) s in
      let s := set_replacer (LRUReplacer.Pin frame_id (replacer_ s)) s in
      let s := set_page_table (<[new_id := frame_id]> (page_table_ s)) s in
      (Some (frame_id, new_id), s, dm)
  end.

Definition FetchPgImp (page_id : page_id_t) (s : t) (dm : DiskManager.t Data)
  : option frame_id_t * t * DiskManager.t Data :=
  match page_table_ s !! page_id with
  | Some frame_id => (Some frame_id, s, dm)
  | None =>
      let pick :=
        match free_list_ s with
        | frame_id :: rest => Some (frame_id, set_free_list rest s)
        | [] =>
            match LRUReplacer.Victim (replacer_ s) with
            | (Some frame_id, r) => Some (frame_id, set_replacer r s)
            | (None, _) => None
            end
        end in
      match pick with
      | None => (None, s, dm)
      | Some (frame_id, s) =>
          let page := page_at s frame_id in
          let '(s, dm) :=
            if bool_decide (page_id_ page ≠ INVALID_PAGE_ID) then
              let s := set_page_table (delete (page_id_ page) (page_table_ s)) s in
              if is_dirty_ page
              then let '(_, s, dm) := FlushPgImp (page_id_ page) s dm in (s, dm)
              else (s, dm)
            else (s, dm) in
          let s := set_page frame_id
                     (mkPage (DiskManager.ReadPage page_id zero dm) page_id 1 false) s in
          let s := set_replacer (LRUReplacer.Pin frame_id (replacer_ s)) s in
          let s := set_page_table (<[page_id := frame_id]> (page_table_ s)) s in
          (Some frame_id, s, dm)
      end
  end.

(** [DeallocatePage] is declared in the class header, which is not among
    the sources; by the spec it returns the identifier to a notional free
    pool, so it leaves the instance as it is. *)
Definition DeletePgImp (page_id : page_id_t) (s : t) : bool * t :=
  match page_table_ s !! page_id with
  | None => (true, s)
  | Some frame_id =>
      let page := page_at s frame_id in
      if bool_decide (pin_count_ page ≠ 0%Z) then (false, s) else
      let s := set_page frame_id (mkPage zero INVALID_PAGE_ID 0 false) s in
      let s := set_page_table (delete page_id (page_table_ s)) s in
      let s := set_free_list (free_list_ s ++ [frame_id]) s in
      (true, s)
  end.

Definition UnpinPgImp (page_id : page_id_t) (is_dirty : bool) (s : t) : bool * t :=
  match page_table_ s !! page_id with
  | None => (false, s)
  | Some frame_id =>
      let page := page_at s frame_id in
      if bool_decide (pin_count_ page = 0%Z) then (false, s) else
      let page := mkPage (data_ page) (page_id_ page) (pin_count_ page - 1) is_dirty in
      let s := set_page frame_id page s in
      if bool_decide (pin_count_ page = 0%Z)
      then (true, set_replacer (LRUReplacer.Unpin frame_id (replacer_ s)) s)
      else (true, s)
  end.

(** A caller that holds a [Page*] writes the frame's bytes in place. *)
Definition write_data (frame_id : frame_id_t) (d : Data) (s : t) : t :=
  let page := page_at s frame_id in
  set_page frame_id (mkPage d (page_id_ page) (pin_count_ page) (is_dirty_ page)) s.

End instance.
Global Arguments Page : clear implicits.
Global Arguments t : clear implicits.
End BufferPoolManagerInstance.

(** ** Parallel buffer pool manager *)

Module ParallelBufferPoolManager.
Section parallel.
Context {Data : Type}.
Variable zero : Data.

Record t := mk {
  bpms_ : list (BufferPoolManagerInstance.t Data);
  last_index : nat }.

(** The constructor pushes instance [i] of [num_instances] for
    [i = 0 .. num_instances - 1]; [last_index] starts at 0. *)
Definition new (num_instances pool_size : nat) : t :=
  mk (map (λ i : nat, BufferPoolManagerInstance.new zero pool_size
                        (Z.of_nat num_instances) (Z.of_nat i))
          (seq 0 num_instances))
     0.

Definition GetPoolSize (s : t) : nat :=
  BufferPoolManagerInstance.pool_size_
    (default (BufferPoolManagerInstance.new zero 0 1 0) (bpms_ s !! 0))
  * length (bpms_ s).

(** [page_id % bpms_.size()]: the [int32_t] page id is converted to the
    64-bit unsigned [size_t] before the remainder is taken.  The result is
    the index into [bpms_]. *)
Definition GetBufferPoolManager (page_id : page_id_t) (s : t) : nat :=
  Z.to_nat ((page_id `mod` 2 ^ 64) `mod` Z.of_nat (length (bpms_ s)))%Z.

(** Run an operation of the instance at index [i] and store the instance
    back.  With no instance at [i] (only when [bpms_] is empty, where the
    source divides by zero) the model returns [dflt] and changes nothing. *)
Definition at_instance {R : Type} (i : nat) (dflt : R)
    (op : BufferPoolManagerInstance.t Data → DiskManager.t Data →
          R * BufferPoolManagerInstance.t Data * DiskManager.t Data)
    (s : t) (dm : DiskManager.t Data) : R * t * DiskManager.t Data :=
  match bpms_ s !! i with
  | Some b =>
      let '(r, b, dm) := op b dm in
      (r, mk (<[i := b]> (bpms_ s)) (last_index s), dm)
  | None => (dflt, s, dm)
  end.

(** A [Page*] of the parallel pool: the owning instance and its frame. *)
Definition FetchPgImp (page_id : page_id_t) (s : t) (dm : DiskManager.t Data)
  : option (nat * frame_id_t) * t * DiskManager.t Data :=
  let i := GetBufferPoolManager page_id s in
  at_instance i None
    (λ b dm, let '(r, b, dm) := BufferPoolManagerInstance.FetchPgImp zero page_id b dm in
             (pair i <$> r, b, dm)) s dm.

Definition UnpinPgImp (page_id : page_id_t) (is_dirty : bool) (s : t)
    (dm : DiskManager.t Data) : bool * t * DiskManager.t Data :=
  at_instance (GetBufferPoolManager page_id s) false
    (λ b dm, let '(r, b) := BufferPoolManagerInstance.UnpinPgImp zero page_id is_dirty b in
             (r, b, dm)) s dm.

Definition FlushPgImp (page_id : page_id_t) (s : t) (dm : DiskManager.t Data)
  : bool * t * DiskManager.t Data :=
  at_instance (GetBufferPoolManager page_id s) false
    (BufferPoolManagerInstance.FlushPgImp zero page_id) s dm.

Definition DeletePgImp (page_id : page_id_t) (s : t) (dm : DiskManager.t Data)
  : bool * t * DiskManager.t Data :=
  at_instance (GetBufferPoolManager page_id s) false
    (λ b dm, let '(r, b) := BufferPoolManagerInstance.DeletePgImp zero page_id b in
             (r, b, dm)) s dm.

(** The [while (true)] loop of [NewPgImp], one iteration per unit of
    [fuel]; [None] means the fuel ran out before the loop was left.  The
    result carries the returned [Page*] and the value left in the
    [page_id] out-parameter ([out] is its value so far). *)
Fixpoint NewPgImp_loop (fuel : nat) (start_index : nat) (s : t)
    (dm : DiskManager.t Data)
  : option (option (nat * frame_id_t) * page_id_t * t * DiskManager.t Data) :=
  match fuel with
  | O => None
  | S fuel =>
      let n := length (bpms_ s) in
      let i := start_index `mod` n in
      match bpms_ s !! i with
      | None => None
      | Some b =>
          match BufferPoolManagerInstance.NewPgImp zero b dm with
          | (Some (frame_id, page_id), b, dm) =>
              Some (Some (i, frame_id), page_id,
                    mk (<[i := b]> (bpms_ s)) ((last_index s + 1) `mod` n), dm)
          | (None, b, dm) =>
              let s := mk (<[i := b]> (bpms_ s)) (last_index s) in
              let start_index := (start_index + 1) `mod` n in
              if bool_decide (start_index = last_index s)
              then Some (None, INVALID_PAGE_ID,
                         mk (bpms_ s) ((last_index s + 1) `mod` n), dm)
              else NewPgImp_loop fuel start_index s dm
          end
      end
  end.

Definition NewPgImp (fuel : nat) (s : t) (dm : DiskManager.t Data) :=
  NewPgImp_loop fuel (last_index s) s dm.

Definition FlushAllPgsImp (s : t) (dm : DiskManager.t Data) : t * DiskManager.t Data :=
  foldl (λ '(s, dm) i,
           match bpms_ s !! i with
           | Some b =>
               let '(b, dm) := BufferPoolManagerInstance.FlushAllPgsImp zero b dm in
               (mk (<[i := b]> (bpms_ s)) (last_index s), dm)
           | None => (s, dm)
           end)
        (s, dm) (seq 0 (length (bpms_ s))).

(** The spec's wording of [NewPage]: probe the instances in the order
    [last_index, last_index + 1, ...] modulo [N]; the first instance whose
    [NewPage] succeeds answers; after [N] failures the call fails.  [k] is
    the number of instances still to probe and [j] the next one. *)
Fixpoint probe (k : nat) (j : nat) (s : t) (dm : DiskManager.t Data)
  : option (nat * frame_id_t * page_id_t * BufferPoolManagerInstance.t Data
            * DiskManager.t Data) :=
  match k with
  | O => None
  | S k =>
      let i := j `mod` length (bpms_ s) in
      match bpms_ s !! i with
      | None => None
      | Some b =>
          match BufferPoolManagerInstance.NewPgImp zero b dm with
          | (Some (frame_id, page_id), b, dm) => Some (i, frame_id, page_id, b, dm)
          | (None, _, _) => probe k ((j + 1) `mod` length (bpms_ s)) s dm
          end
      end
  end.

Definition NewPage_spec (s : t) (dm : DiskManager.t Data)
  : option (nat * frame_id_t) * page_id_t * t * DiskManager.t Data :=
  let n := length (bpms_ s) in
  let next := (last_index s + 1) `mod` n in
  match probe n (last_index s) s dm with
  | Some (i, frame_id, page_id, b, dm) =>
      (Some (i, frame_id), page_id, mk (<[i := b]> (bpms_ s)) next, dm)
  | None => (None, INVALID_PAGE_ID, mk (bpms_ s) next, dm)
  end.

End parallel.
Global Arguments t : clear implicits.
End ParallelBufferPoolManager.

(** ** Hash table pages *)

Module HashTableDirectoryPage.

(** Modelled from the spec: the depth bound and the number of directory
    slots, [1 << MAX_DEPTH] (constants of a header that is not among the
    sources). *)
Definition MAX_DEPTH : Z := 9.
Definition DIRECTORY_ARRAY_SIZE : nat := 512.

(** Modelled from the spec: the directory page class is not among the
    sources.  The page holds [page_id], [lsn], a 32-bit [global_depth], and
    two arrays of [DIRECTORY_ARRAY_SIZE] slots: 8-bit local depths and
    bucket page ids.  The accessors below are the plain field reads and
    writes the hash table calls; an index outside the arrays has no
    defined meaning and yields [None]. *)
Record t := mk {
  page_id_ : page_id_t;
  lsn_ : Z;
  global_depth_ : Z;
  local_depths_ : list Z;
  bucket_page_ids_ : list page_id_t }.

(** The view of an all-zero page. *)
Definition zeroed : t :=
  mk 0 0 0 (replicate DIRECTORY_ARRAY_SIZE 0%Z) (replicate DIRECTORY_ARRAY_SIZE 0%Z).

Definition in_bounds (idx : Z) : bool :=
  bool_decide (0 ≤ idx < Z.of_nat DIRECTORY_ARRAY_SIZE)%Z.

Definition SetPageId (page_id : page_id_t) (d : t) : t :=
  mk page_id (lsn_ d) (global_depth_ d) (local_depths_ d) (bucket_page_ids_ d).

Definition GetGlobalDepth (d : t) : Z := global_depth_ d.

Definition GetGlobalDepthMask (d : t) : Z := ((1 ≪ global_depth_ d) - 1)%Z.

Definition IncrGlobalDepth (d : t) : t :=
  mk (page_id_ d) (lsn_ d) ((global_depth_ d + 1) `mod` 2 ^ 32)%Z
     (local_depths_ d) (bucket_page_ids_ d).

Definition Size (d : t) : Z := (1 ≪ global_depth_ d)%Z.

Definition GetBucketPageId (bucket_idx : Z) (d : t) : option page_id_t :=
  if in_bounds bucket_idx then bucket_page_ids_ d !! Z.to_nat bucket_idx else None.

Definition SetBucketPageId (bucket_idx : Z) (bucket_page_id : page_id_t) (d : t)
  : option t :=
  if in_bounds bucket_idx
  then Some (mk (page_id_ d) (lsn_ d) (global_depth_ d) (local_depths_ d)
                (<[Z.to_nat bucket_idx := bucket_page_id]> (bucket_page_ids_ d)))
  else None.

Definition GetLocalDepth (bucket_idx : Z) (d : t) : option Z :=
  if in_bounds bucket_idx then local_depths_ d !! Z.to_nat bucket_idx else None.

Definition SetLocalDepth (bucket_idx : Z) (local_depth : Z) (d : t) : option t :=
  if in_bounds bucket_idx
  then Some (mk (page_id_ d) (lsn_ d) (global_depth_ d)
                (<[Z.to_nat bucket_idx := (local_depth `mod` 2 ^ 8)%Z]> (local_depths_ d))
                (bucket_page_ids_ d))
  else None.

Definition IncrLocalDepth (bucket_idx : Z) (d : t) : option t :=
  ld ← GetLocalDepth bucket_idx d; SetLocalDepth bucket_idx (ld + 1) d.

End HashTableDirectoryPage.

Module HashTableBucketPage.
Section bucket.
Context {K V : Type} `{EqDecision V}.
(** The comparator: [0] means equal. *)
Variable cmp : K → K → Z.
Variable BUCKET_ARRAY_SIZE : nat.
(** The spec does not say whether removing a pair leaves the slot's
    occupied bit set; [keep_occupied] decides. *)
Variable keep_occupied : bool.

(** Modelled from the spec: the bucket page class is not among the
    sources.  A bucket is an array of [BUCKET_ARRAY_SIZE] key/value slots
    with an occupied bit and a readable bit per slot: [Vacant] is neither,
    [Live k v] is both, [Tombstone] is occupied and not readable.
    A bucket is full iff all slots are occupied and empty iff no slot is
    readable; [Insert] rejects an exact duplicate pair; [Remove] clears the
    first pair that matches key and value; [GetValue] collects the values
    of the readable slots whose key compares equal. *)
Inductive slot := Vacant | Tombstone | Live (k : K) (v : V).

Definition t := list slot.

(** The view of an all-zero page. *)
Definition zeroed : t := replicate BUCKET_ARRAY_SIZE Vacant.

Definition occupied (s : slot) : bool :=
  match s with Vacant => false | _ => true end.
Definition readable (s : slot) : bool :=
  match s with Live _ _ => true | _ => false end.

Definition IsOccupied (bucket_idx : nat) (b : t) : bool :=
  occupied (default Vacant (b !! bucket_idx)).
Definition IsReadable (bucket_idx : nat) (b : t) : bool :=
  readable (default Vacant (b !! bucket_idx)).
Definition KeyAt (bucket_idx : nat) (b : t) : option K :=
  match b !! bucket_idx with Some (Live k _) => Some k | _ => None end.
Definition ValueAt (bucket_idx : nat) (b : t) : option V :=
  match b !! bucket_idx with Some (Live _ v) => Some v | _ => None end.

Definition IsFull (b : t) : bool := forallb occupied b.
Definition IsEmpty (b : t) : bool := forallb (λ s, negb (readable s)) b.

(** What a removal leaves in the slot. *)
Definition removed : slot := if keep_occupied then Tombstone else Vacant.

Definition RemoveAt (bucket_idx : nat) (b : t) : t :=
  match b !! bucket_idx with
  | Some (Live _ _) => <[bucket_idx := removed]> b
  | _ => b
  end.

Definition matches (key : K) (value : V) (s : slot) : bool :=
  match s with
  | Live k v => bool_decide (cmp key k = 0%Z) && bool_decide (value = v)
  | _ => false
  end.

Fixpoint first_index (p : slot → bool) (b : t) : option nat :=
  match b with
  | [] => None
  | s :: b => if p s then Some 0 else S <$> first_index p b
  end.

Definition Insert (key : K) (value : V) (b : t) : bool * t :=
  if existsb (matches key value) b then (false, b)
  else match first_index (λ s, negb (readable s)) b with
       | Some i => (true, <[i := Live key value]> b)
       | None => (false, b)
       end.

Definition Remove (key : K) (value : V) (b : t) : bool * t :=
  match first_index (matches key value) b with
  | Some i => (true, <[i := removed]> b)
  | None => (false, b)
  end.

Definition GetValue (key : K) (b : t) : bool * list V :=
  let result :=
    omap (λ s, match s with
               | Live k v => if bool_decide (cmp key k = 0%Z) then Some v else None
               | _ => None
               end) b in
  (bool_decide (result ≠ []), result).

End bucket.
Global Arguments slot : clear implicits.
Global Arguments t : clear implicits.
End HashTableBucketPage.

(** ** Extendible hash table *)

Module ExtendibleHashTable.
Import BufferPoolManagerInstance.
Section table.
Context {K V : Type} `{EqDecision V}.
(** [comparator_] ([0] means equal) and [hash_fn_.GetHash]. *)
Variable cmp : K → K → Z.
Variable hash_fn : K → Z.
(** The bucket capacity, fixed by the page size and the size of a pair. *)
Variable BUCKET_ARRAY_SIZE : nat.
(** Whether the bucket page keeps the occupied bit of a removed slot. *)
Variable keep_occupied : bool.

(** The bytes of a frame, as the table's [reinterpret_cast]s read them:
    an all-zero page reads as the zeroed directory or the zeroed bucket;
    reading a directory as a bucket (or the reverse) would need the byte
    layout and is reported as the fault [BadCast]. *)
Inductive PageData :=
  | Zeroed
  | Directory (d : HashTableDirectoryPage.t)
  | Bucket (b : HashTableBucketPage.t K V).

(** The calls the table makes on [buffer_pool_manager_], with their results. *)
Inductive event :=
  | EvNewPage (r : option page_id_t)
  | EvFetchPage (page_id : page_id_t) (found : bool)
  | EvUnpinPage (page_id : page_id_t) (is_dirty : bool) (r : bool).

(** The buffer pool the table points to, its disk, and the calls so far. *)
Record env := mkEnv {
  bpm : BufferPoolManagerInstance.t PageData;
  disk : DiskManager.t PageData;
  trace : list event }.

(** Behaviour the source leaves undefined: [GetData] through a null
    [Page*], reading an uninitialised page id, indexing a directory array
    out of bounds, and a cross-type page read. *)
Inductive fault := NullPointer | Uninitialised | OutOfBounds | BadCast.

Inductive result (A : Type) :=
  | Ok (a : A) (e : env)
  | Fault (f : fault) (e : env)
  | OutOfFuel.
Global Arguments Ok {A} a e.
Global Arguments Fault {A} f e.
Global Arguments OutOfFuel {A}.

Definition M (A : Type) : Type := env → result A.

Definition ret {A : Type} (a : A) : M A := λ e, Ok a e.

Definition bind {A B : Type} (m : M A) (f : A → M B) : M B := λ e,
  match m e with
  | Ok a e => f a e
  | Fault x e => Fault x e
  | OutOfFuel => OutOfFuel
  end.

Declare Scope table_scope.
Notation "x ← y ; z" := (bind y (λ x : _, z))
  (at level 20, y at level 100, z at level 200, only parsing) : table_scope.
Notation "y ;; z" := (bind y (λ _, z))
  (at level 100, z at level 200, only parsing, right associativity) : table_scope.
Local Open Scope table_scope.

Definition raise {A : Type} (x : fault) : M A := λ e, Fault x e.

Fixpoint for_each {A : Type} (l : list A) (body : A → M unit) : M unit :=
  match l with
  | [] => ret ()
  | a :: l => body a ;; for_each l body
  end.

(** *** The buffer pool's public entry points

    Modelled from the spec: the table holds a [BufferPoolManager*], whose
    public [NewPage], [FetchPage] and [UnpinPage] (declared in a header
    that is not among the sources) forward to the [...Imp] functions.  The
    model runs the table on one [BufferPoolManagerInstance] and records
    each call. *)

Definition NewPage : M (option (frame_id_t * page_id_t)) := λ e,
  let '(r, b, dm) := NewPgImp Zeroed (bpm e) (disk e) in
  Ok r (mkEnv b dm (trace e ++ [EvNewPage (snd <$> r)])).

Definition FetchPage (page_id : page_id_t) : M (option frame_id_t) := λ e,
  let '(r, b, dm) := FetchPgImp Zeroed page_id (bpm e) (disk e) in
  Ok r (mkEnv b dm (trace e ++ [EvFetchPage page_id (bool_decide (is_Some r))])).

Definition UnpinPage (page_id : page_id_t) (is_dirty : bool) : M bool := λ e,
  let '(r, b) := UnpinPgImp Zeroed page_id is_dirty (bpm e) in
  Ok r (mkEnv b (disk e) (trace e ++ [EvUnpinPage page_id is_dirty r])).

(** *** Typed access through a [Page*] *)

Definition as_directory (d : PageData) : option HashTableDirectoryPage.t :=
  match d with
  | Zeroed => Some HashTableDirectoryPage.zeroed
  | Directory d => Some d
  | Bucket _ => None
  end.

Definition as_bucket (d : PageData) : option (HashTableBucketPage.t K V) :=
  match d with
  | Zeroed => Some (HashTableBucketPage.zeroed BUCKET_ARRAY_SIZE)
  | Bucket b => Some b
  | Directory _ => None
  end.

Definition dir_get {A : Type} (ptr : frame_id_t)
    (f : HashTableDirectoryPage.t → option A) : M A := λ e,
  match as_directory (data_ (page_at Zeroed (bpm e) ptr)) with
  | None => Fault BadCast e
  | Some d => match f d with
              | Some a => Ok a e
              | None => Fault OutOfBounds e
              end
  end.

Definition dir_set (ptr : frame_id_t)
    (f : HashTableDirectoryPage.t → option HashTableDirectoryPage.t) : M unit :=
  d ← dir_get ptr f;
  λ e, Ok () (mkEnv (write_data Zeroed ptr (Directory d) (bpm e)) (disk e) (trace e)).

Definition bucket_get {A : Type} (ptr : frame_id_t)
    (f : HashTableBucketPage.t K V → option A) : M A := λ e,
  match as_bucket (data_ (page_at Zeroed (bpm e) ptr)) with
  | None => Fault BadCast e
  | Some b => match f b with
              | Some a => Ok a e
              | None => Fault Uninitialised e
              end
  end.

Definition bucket_set (ptr : frame_id_t) (b : HashTableBucketPage.t K V) : M unit :=
  λ e, Ok () (mkEnv (write_data Zeroed ptr (Bucket b) (bpm e)) (disk e) (trace e)).

(** *** The table *)

Record t := mk { directory_page_id_ : page_id_t }.

Definition Hash (key : K) : Z := (hash_fn key `mod` 2 ^ 32)%Z.

Definition KeyToDirectoryIndex (key : K) (dir_page : frame_id_t) : M Z :=
  mask ← dir_get dir_page (λ d, Some (HashTableDirectoryPage.GetGlobalDepthMask d));
  ret (Z.land (Hash key) mask).

(** The source returns the page id as [uint32_t] and passes it on as a
    [page_id_t]; for the non-negative ids the allocator produces the two
    conversions cancel. *)
Definition KeyToPageId (key : K) (dir_page : frame_id_t) : M page_id_t :=
  idx ← KeyToDirectoryIndex key dir_page;
  dir_get dir_page (HashTableDirectoryPage.GetBucketPageId idx).

Definition FetchDirectoryPage (ht : t) : M frame_id_t :=
  p ← FetchPage (directory_page_id_ ht);
  match p with Some ptr => ret ptr | None => raise NullPointer end.

Definition FetchBucketPage (bucket_page_id : page_id_t) : M frame_id_t :=
  p ← FetchPage bucket_page_id;
  match p with Some ptr => ret ptr | None => raise NullPointer end.

(** The constructor.  When a bucket's [NewPage] fails the source reads the
    page id variable it never assigned. *)
Definition new : M t :=
  p ← NewPage;
  match p with
  | None => raise NullPointer
  | Some (directory_page, directory_page_id) =>
      dir_set directory_page (λ d, Some (HashTableDirectoryPage.IncrGlobalDepth d));;
      dir_set directory_page (λ d, Some (HashTableDirectoryPage.SetPageId directory_page_id d));;
      p0 ← NewPage;
      match p0 with
      | None => raise Uninitialised
      | Some (_, bucket_page_id_0) =>
          dir_set directory_page (HashTableDirectoryPage.SetBucketPageId 0 bucket_page_id_0);;
          dir_set directory_page (HashTableDirectoryPage.SetLocalDepth 0 1);;
          p1 ← NewPage;
          match p1 with
          | None => raise Uninitialised
          | Some (_, bucket_page_id_1) =>
              dir_set directory_page (HashTableDirectoryPage.SetBucketPageId 1 bucket_page_id_1);;
              dir_set directory_page (HashTableDirectoryPage.SetLocalDepth 1 1);;
              UnpinPage bucket_page_id_0 false;;
              UnpinPage bucket_page_id_1 false;;
              UnpinPage directory_page_id true;;
              ret (mk directory_page_id)
          end
      end
  end.

Definition GetValue (ht : t) (key : K) : M (bool * list V) :=
  directory_page ← FetchDirectoryPage ht;
  page_id ← KeyToPageId key directory_page;
  bucket_page ← FetchBucketPage page_id;
  r ← bucket_get bucket_page (λ b, Some (HashTableBucketPage.GetValue cmp key b));
  UnpinPage (directory_page_id_ ht) false;;
  UnpinPage page_id false;;
  ret r.

(** [SplitInsert] up to its last statement; the closing [return Insert(...)]
    is added where the recursion is tied, in [Insert] below. *)
Definition split (ht : t) (key : K) : M unit :=
  directory_page ← FetchDirectoryPage ht;
  bucket_id ← KeyToDirectoryIndex key directory_page;
  bucket_page_id ← KeyToPageId key directory_page;
  bucket_page ← FetchBucketPage bucket_page_id;
  ld ← dir_get directory_page (HashTableDirectoryPage.GetLocalDepth bucket_id);
  gd ← dir_get directory_page (λ d, Some (HashTableDirectoryPage.GetGlobalDepth d));
  let incr_global_depth := bool_decide (ld = gd) in
  (if incr_global_depth
   then dir_set directory_page (λ d, Some (HashTableDirectoryPage.IncrGlobalDepth d))
   else ret ());;
  ld ← dir_get directory_page (HashTableDirectoryPage.GetLocalDepth bucket_id);
  let split_bucket_id := (Z.lor (1 ≪ ld) bucket_id `mod` 2 ^ 32)%Z in
  dir_set directory_page (HashTableDirectoryPage.IncrLocalDepth bucket_id);;
  new_local_depth ← dir_get directory_page (HashTableDirectoryPage.GetLocalDepth bucket_id);
  p ← NewPage;
  match p with
  | None => raise NullPointer
  | Some (split_bucket_page, split_bucket_page_id) =>
      dir_set directory_page
        (HashTableDirectoryPage.SetBucketPageId split_bucket_id split_bucket_page_id);;
      dir_set directory_page
        (HashTableDirectoryPage.SetLocalDepth split_bucket_id new_local_depth);;
      for_each (seq 0 BUCKET_ARRAY_SIZE) (λ i,
        readable ← bucket_get bucket_page (λ b, Some (HashTableBucketPage.IsReadable i b));
        if readable : bool then
          key ← bucket_get bucket_page (HashTableBucketPage.KeyAt i);
          value ← bucket_get bucket_page (HashTableBucketPage.ValueAt i);
          let insert_id := Z.land (Hash key) ((1 ≪ new_local_depth) - 1) in
          if bool_decide (insert_id = split_bucket_id) then
            b ← bucket_get split_bucket_page
                  (λ b, Some (HashTableBucketPage.Insert cmp key value b).2);
            bucket_set split_bucket_page b;;
            b ← bucket_get bucket_page
                  (λ b, Some (HashTableBucketPage.RemoveAt keep_occupied i b));
            bucket_set bucket_page b
          else ret ()
        else ret ());;
      (if incr_global_depth then
         global_depth ← dir_get directory_page
                          (λ d, Some (HashTableDirectoryPage.GetGlobalDepth d));
         size ← dir_get directory_page (λ d, Some (HashTableDirectoryPage.Size d));
         let first := (1 ≪ (global_depth - 1))%Z in
         for_each (seq (Z.to_nat first) (Z.to_nat size - Z.to_nat first)) (λ i,
           let i := Z.of_nat i in
           if bool_decide (i = split_bucket_id) then ret () else
           let redirect_bucket_idx := Z.land i ((1 ≪ (global_depth - 1)) - 1) in
           id ← dir_get directory_page
                  (HashTableDirectoryPage.GetBucketPageId redirect_bucket_idx);
           dir_set directory_page (HashTableDirectoryPage.SetBucketPageId i id);;
           ld ← dir_get directory_page
                  (HashTableDirectoryPage.GetLocalDepth redirect_bucket_idx);
           dir_set directory_page (HashTableDirectoryPage.SetLocalDepth i ld))
       else ret ());;
      UnpinPage (directory_page_id_ ht) incr_global_depth;;
      UnpinPage bucket_id true;;
      UnpinPage split_bucket_id true;;
      ret ()
  end.

(** [Insert] and [SplitInsert] call each other; each call of [Insert]
    takes one unit of [fuel], and [OutOfFuel] reports that the calls did
    not come to an end within it. *)
Fixpoint Insert (fuel : nat) (ht : t) (key : K) (value : V) : M bool :=
  match fuel with
  | O => λ _, OutOfFuel
  | S fuel =>
      directory_page ← FetchDirectoryPage ht;
      bucket_page_id ← KeyToPageId key directory_page;
      bucket_page ← FetchBucketPage bucket_page_id;
      full ← bucket_get bucket_page (λ b, Some (HashTableBucketPage.IsFull b));
      if full : bool then
        UnpinPage (directory_page_id_ ht) false;;
        UnpinPage bucket_page_id false;;
        split ht key;; Insert fuel ht key value
      else
        r ← bucket_get bucket_page (λ b, Some (HashTableBucketPage.Insert cmp key value b));
        bucket_set bucket_page r.2;;
        UnpinPage (directory_page_id_ ht) false;;
        UnpinPage bucket_page_id r.1;;
        ret r.1
  end.

Definition SplitInsert (fuel : nat) (ht : t) (key : K) (value : V) : M bool :=
  split ht key;; Insert fuel ht key value.

(** [Merge] has an empty body. *)
Definition Merge (ht : t) (key : K) (value : V) : M unit := ret ().

Definition Remove (ht : t) (key : K) (value : V) : M bool :=
  directory_page ← FetchDirectoryPage ht;
  bucket_page_id ← KeyToPageId key directory_page;
  bucket_page ← FetchBucketPage bucket_page_id;
  r ← bucket_get bucket_page
         (λ b, Some (HashTableBucketPage.Remove cmp keep_occupied key value b));
  bucket_set bucket_page r.2;;
  UnpinPage (directory_page_id_ ht) false;;
  UnpinPage bucket_page_id r.1;;
  empty ← bucket_get bucket_page (λ b, Some (HashTableBucketPage.IsEmpty b));
  (if empty : bool then Merge ht key value else ret ());;
  ret r.1.

Definition GetGlobalDepth (ht : t) : M Z :=
  dir_page ← FetchDirectoryPage ht;
  global_depth ← dir_get dir_page (λ d, Some (HashTableDirectoryPage.GetGlobalDepth d));
  UnpinPage (directory_page_id_ ht) false;;
  ret global_depth.

End table.
End ExtendibleHashTable.

(** ** Concrete runs *)

Module Scenario.
Import BufferPoolManagerInstance.

(** Modelled from the spec: the page size (4 KiB, a constant of the
    configuration header).  A page image is its list of bytes. *)
Definition PAGE_SIZE : nat := 4096.
Definition zero_page : list Z := replicate PAGE_SIZE 0%Z.

(** A single instance with one frame: [NewPage] (page 0), the caller
    writes [0xAB] at offset 0 and unpins the page as dirty. *)
Definition dirty_page_0 : BufferPoolManagerInstance.t (list Z) * DiskManager.t (list Z) :=
  let '(_, s, dm) := NewPgImp zero_page (new zero_page 1 1 0) DiskManager.empty in
  let s := write_data zero_page 0 (<[0 := 171%Z]> zero_page) s in
  let '(_, s) := UnpinPgImp zero_page 0 true s in
  (s, dm).

(** A single instance with one frame: [NewPage] (page 0), then
    [UnpinPage(0, false)]. *)
Definition unpinned_page_0 : BufferPoolManagerInstance.t (list Z) :=
  let '(_, s, _) := NewPgImp zero_page (new zero_page 1 1 0) DiskManager.empty in
  (UnpinPgImp zero_page 0 false s).2.

End Scenario.

(** ** Frame accounting *)

Module Accounting.
Import BufferPoolManagerInstance.
Section accounting.
Context {Data : Type}.
Variable zero : Data.

Definition pinned (s : BufferPoolManagerInstance.t Data) (f : frame_id_t) : bool :=
  bool_decide (0 < pin_count_ (page_at zero s f))%Z.

Definition pinned_frames (s : BufferPoolManagerInstance.t Data) : list frame_id_t :=
  filter (λ f, pinned s f) (seq 0 (pool_size_ s)).

(** In how many of the three states {free list, replacer queue, pinned}
    the frame is. *)
Definition states_of (s : BufferPoolManagerInstance.t Data) (f : frame_id_t) : nat :=
  (if bool_decide (f ∈ free_list_ s) then 1 else 0)
  + (if bool_decide (f ∈ LRUReplacer.lru_ (replacer_ s)) then 1 else 0)
  + (if pinned s f then 1 else 0).

Definition exactly_one_state (s : BufferPoolManagerInstance.t Data) : Prop :=
  ∀ f, f < pool_size_ s → states_of s f = 1.

Definition frame_count (s : BufferPoolManagerInstance.t Data) : nat :=
  length (free_list_ s) + LRUReplacer.Size (replacer_ s) + length (pinned_frames s).

(** The free list and the replacer queue hold no frame twice, hold no
    pinned frame and no frame in common, and every unpinned frame of the
    pool is in one of them.  [pin f] tells whether frame [f] is pinned. *)
Definition part (pool_size limit : nat) (free lru : list frame_id_t)
    (pin : frame_id_t → bool) : Prop :=
  limit = pool_size
  ∧ NoDup free
  ∧ NoDup lru
  ∧ (∀ f, f ∈ free → pin f = false ∧ f ∉ lru)
  ∧ (∀ f, f ∈ lru → pin f = false)
  ∧ (∀ f, f < pool_size → pin f = false → f ∈ free ∨ f ∈ lru).

Definition partitioned (s : BufferPoolManagerInstance.t Data) : Prop :=
  part (pool_size_ s) (LRUReplacer.lru_limit_ (replacer_ s))
       (free_list_ s) (LRUReplacer.lru_ (replacer_ s)) (pinned s).

(** [pin] after frame [f] has become pinned ([b = true]) or unpinned. *)
Definition pin_upd (f : frame_id_t) (b : bool) (pin : frame_id_t → bool)
  : frame_id_t → bool :=
  λ g, if decide (g = f) then b else pin g.

End accounting.
End Accounting.

(** ** States reachable through the public operations *)

Module Reachable.
Import BufferPoolManagerInstance.
Section reachable.
Context {Data : Type}.
Variable zero : Data.

(** The frame taken for a new or fetched page: the free list first, then
    the replacer's victim. *)
Definition pick (s : BufferPoolManagerInstance.t Data)
  : option (frame_id_t * BufferPoolManagerInstance.t Data) :=
  match free_list_ s with
  | frame_id :: rest => Some (frame_id, set_free_list rest s)
  | [] =>
      match LRUReplacer.lru_ (replacer_ s) with
      | frame_id :: rest =>
          Some (frame_id,
                set_replacer (LRUReplacer.mk rest (LRUReplacer.lru_limit_ (replacer_ s))) s)
      | [] => None
      end
  end.

(** The picked frame loses its page-table entry, pins the new page and
    leaves the replacer. *)
Definition install (frame_id : frame_id_t) (page_id : page_id_t) (d : Data)
    (s : BufferPoolManagerInstance.t Data) : BufferPoolManagerInstance.t Data :=
  let old := page_at zero s frame_id in
  let table := if bool_decide (page_id_ old ≠ INVALID_PAGE_ID)
               then delete (page_id_ old) (page_table_ s) else page_table_ s in
  set_page_table (<[page_id := frame_id]> table)
    (set_replacer (LRUReplacer.Pin frame_id (replacer_ s))
       (set_page frame_id (mkPage d page_id 1 false) s)).

(** What a client can do to an instance: the public operations, against
    any disk, and a write through a [Page*]. *)
Inductive call :=
  | Call_NewPage (dm : DiskManager.t Data)
  | Call_FetchPage (page_id : page_id_t) (dm : DiskManager.t Data)
  | Call_UnpinPage (page_id : page_id_t) (is_dirty : bool)
  | Call_FlushPage (page_id : page_id_t) (dm : DiskManager.t Data)
  | Call_FlushAllPages (dm : DiskManager.t Data)
  | Call_DeletePage (page_id : page_id_t)
  | Call_write (frame_id : frame_id_t) (d : Data).

Definition run (c : call) (s : BufferPoolManagerInstance.t Data)
  : BufferPoolManagerInstance.t Data :=
  match c with
  | Call_NewPage dm => (NewPgImp zero s dm).1.2
  | Call_FetchPage page_id dm => (FetchPgImp zero page_id s dm).1.2
  | Call_UnpinPage page_id is_dirty => (UnpinPgImp zero page_id is_dirty s).2
  | Call_FlushPage page_id dm => (FlushPgImp zero page_id s dm).1.2
  | Call_FlushAllPages dm => (FlushAllPgsImp zero s dm).1
  | Call_DeletePage page_id => (DeletePgImp zero page_id s).2
  | Call_write frame_id d => write_data zero frame_id d s
  end.

Definition is_DeletePage (c : call) : bool :=
  match c with Call_DeletePage _ => true | _ => false end.

(** The states built by the constructor (whose assertions demand
    [0 ≤ instance_index < num_instances]) and the calls in [allowed]. *)
Inductive reachable_by (allowed : call → Prop)
  : BufferPoolManagerInstance.t Data → Prop :=
  | reachable_new pool_size num_instances instance_index :
      (0 ≤ instance_index < num_instances)%Z →
      reachable_by allowed (new zero pool_size num_instances instance_index)
  | reachable_run c s :
      allowed c → reachable_by allowed s → reachable_by allowed (run c s).

Definition reachable : BufferPoolManagerInstance.t Data → Prop :=
  reachable_by (λ _, True).

(** A frame is pinned at most once, and a pinned frame is clean. *)
Definition pinned_clean (p : Page Data) : Prop :=
  pin_count_ p = 0%Z ∨ (pin_count_ p = 1%Z ∧ is_dirty_ p = false).

(** Every frame id held by the free list, the replacer or the page table
    indexes [pages_]. *)
Definition frames_in_range (s : BufferPoolManagerInstance.t Data) : Prop :=
  length (pages_ s) = pool_size_ s
  ∧ Forall (λ f, f < pool_size_ s) (free_list_ s)
  ∧ Forall (λ f, f < pool_size_ s) (LRUReplacer.lru_ (replacer_ s))
  ∧ map_Forall (λ _ f, f < pool_size_ s) (page_table_ s).

(** The allocator only hands out identifiers of its own residue class. *)
Definition allocator_valid (s : BufferPoolManagerInstance.t Data) : Prop :=
  (0 ≤ instance_index_ s < num_instances_ s)%Z
  ∧ (0 ≤ next_page_id_ s)%Z
  ∧ ValidatePageId (next_page_id_ s) s = true.

End reachable.
End Reachable.

(** The parallel pool: at least one instance and the cursor inside. *)
Module ParallelReachable.
Import ParallelBufferPoolManager.

Definition cursor_in_range {Data : Type} (s : ParallelBufferPoolManager.t Data) : Prop :=
  0 < length (bpms_ s) ∧ last_index s < length (bpms_ s).

End ParallelReachable.

(** ** Concrete runs of the hash table *)

Module TableScenario.
Import ExtendibleHashTable.

(** Modelled from the spec: the comparator is a total order on keys; this
    is the three-way comparison of integers. *)
Definition IntComparator (lhs rhs : Z) : Z :=
  if bool_decide (lhs < rhs)%Z then (-1)%Z
  else if bool_decide (rhs < lhs)%Z then 1%Z else 0%Z.

(** Integer keys and values; a key is named by its hash (the hash function
    handed to the constructor is the identity), and a bucket holds two
    pairs, as in the spec's split scenario.  The runs take the bucket
    page's [keep_occupied] as a parameter. *)
Definition hash_fn (key : Z) : Z := key.
Definition BUCKET_ARRAY_SIZE : nat := 2.

Abbreviation env := (ExtendibleHashTable.env (K:=Z) (V:=Z)).
Abbreviation result := (ExtendibleHashTable.result (K:=Z) (V:=Z)).
Abbreviation M := (ExtendibleHashTable.M (K:=Z) (V:=Z)).

(** A pool of 50 frames (one instance) over an empty disk. *)
Definition pool : env :=
  mkEnv (BufferPoolManagerInstance.new Zeroed 50 1 0) DiskManager.empty [].

(** More fuel than any run below needs. *)
Definition enough : nat := 40.

Definition Insert (keep_occupied : bool) (ht : t) (key value : Z) : M bool :=
  ExtendibleHashTable.Insert IntComparator hash_fn BUCKET_ARRAY_SIZE keep_occupied
    enough ht key value.
Definition GetValue (ht : t) (key : Z) : M (bool * list Z) :=
  ExtendibleHashTable.GetValue IntComparator hash_fn BUCKET_ARRAY_SIZE ht key.
Definition split (keep_occupied : bool) (ht : t) (key : Z) : M unit :=
  ExtendibleHashTable.split IntComparator hash_fn BUCKET_ARRAY_SIZE keep_occupied ht key.

(** Insert the pairs in order and collect the results. *)
Fixpoint insert_all (keep_occupied : bool) (ht : t) (pairs : list (Z * Z))
  : M (list bool) :=
  match pairs with
  | [] => ret []
  | (key, value) :: pairs =>
      bind (Insert keep_occupied ht key value) (λ r,
      bind (insert_all keep_occupied ht pairs) (λ rs, ret (r :: rs)))
  end.

(** A fresh table on [pool] after inserting [(k, 10 k)] for each key; the
    trace of buffer pool calls is cleared at the end. *)
Definition table_after (keep_occupied : bool) (keys : list Z)
  : result (t * list bool) :=
  bind new (λ ht,
  bind (insert_all keep_occupied ht ((λ k, (k, 10 * k)%Z) <$> keys)) (λ rs,
  λ e, Ok (ht, rs) (mkEnv (bpm e) (disk e) []))) pool.

(** The directory as it is stored in the pool. *)
Definition directory_of (ht : t) (e : env) : option HashTableDirectoryPage.t :=
  frame_id ← BufferPoolManagerInstance.page_table_ (bpm e) !! directory_page_id_ ht;
  as_directory (BufferPoolManagerInstance.data_
                  (BufferPoolManagerInstance.page_at Zeroed (bpm e) frame_id)).

(** The bucket stored under a page id. *)
Definition bucket_of (page_id : page_id_t) (e : env)
  : option (HashTableBucketPage.t Z Z) :=
  frame_id ← BufferPoolManagerInstance.page_table_ (bpm e) !! page_id;
  as_bucket BUCKET_ARRAY_SIZE
    (BufferPoolManagerInstance.data_
       (BufferPoolManagerInstance.page_at Zeroed (bpm e) frame_id)).

Definition pin_count_of (page_id : page_id_t) (e : env) : option Z :=
  frame_id ← BufferPoolManagerInstance.page_table_ (bpm e) !! page_id;
  Some (BufferPoolManagerInstance.pin_count_
          (BufferPoolManagerInstance.page_at Zeroed (bpm e) frame_id)).

Definition global_depth_of (ht : t) (e : env) : option Z :=
  HashTableDirectoryPage.GetGlobalDepth <$> directory_of ht e.

(** The bucket page id and the local depth of a directory slot. *)
Definition slot_of (ht : t) (e : env) (idx : Z) : option (page_id_t * Z) :=
  d ← directory_of ht e;
  bucket_page_id ← HashTableDirectoryPage.GetBucketPageId idx d;
  local_depth ← HashTableDirectoryPage.GetLocalDepth idx d;
  Some (bucket_page_id, local_depth).

End TableScenario.

(** ** Directory coherence *)

Module Coherence.
Import HashTableDirectoryPage.

Definition low_bits (idx local_depth : Z) : Z :=
  Z.land idx ((1 ≪ local_depth) - 1).

(** Slots [i] and [j] agree on their low local-depth bits but differ in
    bucket page id or local depth. *)
Definition clash (d : HashTableDirectoryPage.t) (i j : Z) : bool :=
  match GetLocalDepth i d, GetLocalDepth j d,
        GetBucketPageId i d, GetBucketPageId j d with
  | Some ldi, Some ldj, Some bi, Some bj =>
      bool_decide (low_bits i ldi = low_bits j ldj)
      && negb (bool_decide (bi = bj) && bool_decide (ldi = ldj))
  | _, _, _, _ => false
  end.

(** No two live slots clash. *)
Definition coherent (d : HashTableDirectoryPage.t) : bool :=
  let live := Z.of_nat <$> seq 0 (Z.to_nat (Size d)) in
  forallb (λ i, forallb (λ j, negb (clash d i j)) live) live.

End Coherence.

(** ** Runs of the replacer *)

Module ReplacerRuns.
Import LRUReplacer.

(** The three mutators of the replacer. *)
Inductive call :=
  | Call_Victim
  | Call_Pin (frame_id : frame_id_t)
  | Call_Unpin (frame_id : frame_id_t).

Definition run (r : LRUReplacer.t) (c : call) : LRUReplacer.t :=
  match c with
  | Call_Victim => (Victim r).2
  | Call_Pin frame_id => Pin frame_id r
  | Call_Unpin frame_id => Unpin frame_id r
  end.

(** [Unpin] called on each frame of [l] in order. *)
Definition unpin_all (l : list frame_id_t) (r : LRUReplacer.t) : LRUReplacer.t :=
  foldl (λ r frame_id, Unpin frame_id r) r l.

(** [Victim] called [n] times; the frames it stored, [None] for a call
    that returned false. *)
Fixpoint victims (n : nat) (r : LRUReplacer.t)
  : list (option frame_id_t) * LRUReplacer.t :=
  match n with
  | O => ([], r)
  | S n =>
      let '(v, r) := Victim r in
      let '(vs, r) := victims n r in
      (v :: vs, r)
  end.

End ReplacerRuns.

(** ** Soundness of the page table *)

Module PageTable.
Import BufferPoolManagerInstance Reachable.
Section page_table.
Context {Data : Type}.
Variable zero : Data.




End page_table.
End PageTable.

(** ** Sharding of the page ids over the instances *)

Module Sharding.
Import ParallelBufferPoolManager.
Section sharding.
Context {Data : Type}.
Variable zero : Data.

(** Instance [i] of the [N] instances was built for index [i] of [N] and
    has since been changed by its own public operations only. *)
Definition sharded (s : ParallelBufferPoolManager.t Data) : Prop :=
  0 < length (bpms_ s)
  ∧ ∀ i b, bpms_ s !! i = Some b →
      Reachable.reachable zero b
      ∧ BufferPoolManagerInstance.num_instances_ b = Z.of_nat (length (bpms_ s))
      ∧ BufferPoolManagerInstance.instance_index_ b = Z.of_nat i.

End sharding.
End Sharding.

(** ** Pages of the table that are in the pool *)

Module Residency.
Import BufferPoolManagerInstance ExtendibleHashTable.
Section residency.
Context {K V : Type}.
Variable BUCKET_ARRAY_SIZE : nat.

(** Page [page_id] is in frame [ptr], and its bytes read as directory [d]. *)
Definition directory_at (e : env (K:=K) (V:=V)) (page_id : page_id_t)
    (ptr : frame_id_t) (d : HashTableDirectoryPage.t) : Prop :=
  page_table_ (bpm e) !! page_id = Some ptr
  ∧ as_directory (data_ (page_at Zeroed (bpm e) ptr)) = Some d.

(** Page [page_id] is in frame [ptr], and its bytes read as bucket [b]. *)
Definition bucket_at (e : env (K:=K) (V:=V)) (page_id : page_id_t)
    (ptr : frame_id_t) (b : HashTableBucketPage.t K V) : Prop :=
  page_table_ (bpm e) !! page_id = Some ptr
  ∧ as_bucket BUCKET_ARRAY_SIZE (data_ (page_at Zeroed (bpm e) ptr)) = Some b.

(** [e'] has the page table, the disk and the bytes of every frame of [e]
    but for frame [ptr]; pin counts, dirty flags and the replacer may
    differ. *)
Definition same_pages_but (ptr : option frame_id_t) (e e' : env (K:=K) (V:=V)) : Prop :=
  page_table_ (bpm e') = page_table_ (bpm e)
  ∧ disk e' = disk e
  ∧ length (pages_ (bpm e')) = length (pages_ (bpm e))
  ∧ ∀ g, Some g ≠ ptr →
         data_ (page_at Zeroed (bpm e') g) = data_ (page_at Zeroed (bpm e) g).

End residency.
End Residency.

(** ** States of a table *)

Module TableStates.
Import ExtendibleHashTable TableScenario.

(** The table and the pool after the keys were inserted into a fresh
    table on [pool] (with value [10 k] for key [k]). *)
Definition state_after (keys : list Z) : ExtendibleHashTable.t * env :=
  match table_after false keys with
  | Ok (ht, _) e => (ht, e)
  | _ => (ExtendibleHashTable.mk 0, pool)
  end.

(** The directory a fresh table starts with: global depth 1, and the two
    slots in use at local depth 1, naming the pages [b0] and [b1]. *)
Definition initial_directory (page_id b0 b1 : page_id_t) : HashTableDirectoryPage.t :=
  HashTableDirectoryPage.mk page_id 0 1
    (1%Z :: 1%Z :: replicate 510 0%Z) (b0 :: b1 :: replicate 510 0%Z).

End TableStates.

(** * Properties of the buffer pool manager instance *)

Section instance_facts.
Import BufferPoolManagerInstance.
Context {Data : Type}.
Variable zero : Data.
Implicit Types (s : BufferPoolManagerInstance.t Data) (dm : DiskManager.t Data).

Lemma set_page_page_at s f p :
  f < length (pages_ s) → page_at zero (set_page f p s) f = p.
Proof.
  intros Hf. unfold page_at, set_page; simpl.
  by rewrite list_lookup_insert_eq.
Qed.

Lemma set_page_page_at_ne s f g p :
  f ≠ g → page_at zero (set_page f p s) g = page_at zero s g.
Proof.
  intros Hne. unfold page_at, set_page; simpl.
  by rewrite list_lookup_insert_ne.
Qed.

(** Flushing a page that is not in the page table does nothing. *)
Lemma FlushPgImp_absent s dm page_id :
  page_table_ s !! page_id = None → FlushPgImp zero page_id s dm = (false, s, dm).
Proof. intros Hnone. unfold FlushPgImp. by rewrite Hnone. Qed.

(** The write-back of the eviction path runs after the victim's entry has
    been erased from the page table, so it never reaches the disk. *)
Lemma FlushPgImp_after_erase s dm page_id :
  FlushPgImp zero page_id (set_page_table (delete page_id (page_table_ s)) s) dm
  = (false, set_page_table (delete page_id (page_table_ s)) s, dm).
Proof. apply FlushPgImp_absent. simpl. apply lookup_delete_eq. Qed.

Lemma NewPgImp_disk s dm : (NewPgImp zero s dm).2 = dm.
Proof.
  unfold NewPgImp.
  destruct (all_pages_pinned zero s); [done|].
  destruct (free_list_ s) as [|f rest].
  - destruct (LRUReplacer.Victim (replacer_ s)) as [[f|] r]; [|done].
    destruct (bool_decide _); [|done].
    destruct (is_dirty_ _); [|done].
    by rewrite FlushPgImp_after_erase.
  - destruct (bool_decide _); [|done].
    destruct (is_dirty_ _); [|done].
    by rewrite FlushPgImp_after_erase.
Qed.

Lemma FetchPgImp_disk s dm page_id : (FetchPgImp zero page_id s dm).2 = dm.
Proof.
  unfold FetchPgImp.
  destruct (page_table_ s !! page_id); [done|].
  destruct (free_list_ s) as [|f rest].
  - destruct (LRUReplacer.Victim (replacer_ s)) as [[f|] r]; [|done].
    destruct (bool_decide _); [|done].
    destruct (is_dirty_ _); [|done].
    by rewrite FlushPgImp_after_erase.
  - destruct (bool_decide _); [|done].
    destruct (is_dirty_ _); [|done].
    by rewrite FlushPgImp_after_erase.
Qed.

(** A failing [NewPgImp] has touched nothing. *)
Lemma NewPgImp_None s dm :
  (NewPgImp zero s dm).1.1 = None → NewPgImp zero s dm = (None, s, dm).
Proof.
  unfold NewPgImp.
  destruct (all_pages_pinned zero s); [done|].
  destruct (free_list_ s) as [|f rest].
  - unfold LRUReplacer.Victim. destruct (LRUReplacer.lru_ (replacer_ s)); [done|].
    simpl. repeat case_match; simpl; done.
  - simpl. repeat case_match; simpl; done.
Qed.

Lemma FetchPgImp_None s dm page_id :
  (FetchPgImp zero page_id s dm).1.1 = None →
  FetchPgImp zero page_id s dm = (None, s, dm).
Proof.
  unfold FetchPgImp.
  destruct (page_table_ s !! page_id); [done|].
  destruct (free_list_ s) as [|f rest].
  - unfold LRUReplacer.Victim. destruct (LRUReplacer.lru_ (replacer_ s)); [done|].
    simpl. repeat case_match; simpl; done.
  - simpl. repeat case_match; simpl; done.
Qed.

End instance_facts.

(** * Invariants of the reachable instance states *)

Section reachable_facts.
Import BufferPoolManagerInstance Reachable.
Context {Data : Type}.
Variable zero : Data.
Implicit Types (s : BufferPoolManagerInstance.t Data) (dm : DiskManager.t Data).

Lemma page_at_Forall (P : Page Data → Prop) s f :
  Forall P (pages_ s) → P (blank zero) → P (page_at zero s f).
Proof.
  intros Hall Hblank. unfold page_at.
  destruct (pages_ s !! f) as [p|] eqn:Hp; simpl; [|done].
  by eapply Forall_lookup_1.
Qed.

Lemma pinned_clean_blank : pinned_clean (blank zero).
Proof. by left. Qed.

(** What the flush loop changes: only dirty flags. *)
Lemma FlushAllPgsImp_fold (l : list (Z * nat)) : ∀ s dm,
  let r := foldl (flush_entry zero) (s, dm) l in
  pool_size_ r.1 = pool_size_ s ∧ num_instances_ r.1 = num_instances_ s
  ∧ instance_index_ r.1 = instance_index_ s ∧ next_page_id_ r.1 = next_page_id_ s
  ∧ replacer_ r.1 = replacer_ s ∧ free_list_ r.1 = free_list_ s
  ∧ page_table_ r.1 = page_table_ s
  ∧ length (pages_ r.1) = length (pages_ s)
  ∧ (Forall pinned_clean (pages_ s) → Forall pinned_clean (pages_ r.1)).
Proof.
  induction l as [|[page_id frame_id] l IH]; intros s dm; simpl; [done|].
  specialize (IH (set_page frame_id
     (mkPage (data_ (page_at zero s frame_id)) (page_id_ (page_at zero s frame_id))
             (pin_count_ (page_at zero s frame_id)) false) s)
     (DiskManager.WritePage page_id (data_ (page_at zero s frame_id)) dm)).
  simpl in IH. destruct IH as (?&?&?&?&?&?&?&Hlen&Hclean).
  split_and!; try done.
  - rewrite Hlen. apply length_insert.
  - intros Hall. apply Hclean. apply Forall_insert; [done|].
    pose proof (page_at_Forall pinned_clean s frame_id Hall pinned_clean_blank) as Hp.
    destruct Hp as [Hp|[Hp _]]; [by left | by right].
Qed.


(** The three ways through the eviction code: no valid page, a clean
    victim, a dirty victim (whose flush finds no page-table entry). *)
Ltac evict_cases :=
  let Hvalid := fresh "Hvalid" in
  cbn [fst snd];
  match goal with
  | |- context [bool_decide (page_id_ ?p ≠ INVALID_PAGE_ID)] =>
      destruct (bool_decide (page_id_ p ≠ INVALID_PAGE_ID)) eqn:Hvalid
  end;
  [ match goal with
    | |- context [is_dirty_ ?p] =>
        destruct (is_dirty_ p); [rewrite FlushPgImp_after_erase|]
    end | ];
  unfold page_at in *; simpl in *; rewrite ?Hvalid; reflexivity.

Lemma NewPgImp_eq s dm :
  NewPgImp zero s dm =
  if all_pages_pinned zero s then (None, s, dm) else
  match pick s with
  | None => (None, s, dm)
  | Some (frame_id, s1) =>
      (Some (frame_id, next_page_id_ s),
       install zero frame_id (next_page_id_ s) zero
         (set_next_page_id (next_page_id_ s + num_instances_ s) s1), dm)
  end.
Proof.
  unfold NewPgImp, pick, install, LRUReplacer.Victim.
  destruct (all_pages_pinned zero s); [done|].
  destruct (free_list_ s) as [|f rest].
  - destruct (LRUReplacer.lru_ (replacer_ s)) as [|f rest]; [done|].
    evict_cases.
  - evict_cases.
Qed.

Lemma FetchPgImp_eq s dm page_id :
  FetchPgImp zero page_id s dm =
  match page_table_ s !! page_id with
  | Some frame_id => (Some frame_id, s, dm)
  | None =>
      match pick s with
      | None => (None, s, dm)
      | Some (frame_id, s1) =>
          (Some frame_id,
           install zero frame_id page_id (DiskManager.ReadPage page_id zero dm) s1, dm)
      end
  end.
Proof.
  unfold FetchPgImp, pick, install, LRUReplacer.Victim.
  destruct (page_table_ s !! page_id); [done|].
  destruct (free_list_ s) as [|f rest].
  - destruct (LRUReplacer.lru_ (replacer_ s)) as [|f rest]; [done|].
    evict_cases.
  - evict_cases.
Qed.

Ltac unfold_ops :=
  rewrite ?NewPgImp_eq, ?FetchPgImp_eq;
  unfold pick, install, UnpinPgImp, FlushPgImp, DeletePgImp, write_data,
    LRUReplacer.Pin, LRUReplacer.Unpin;
  repeat case_match; simplify_eq/=;
  repeat match goal with
         | H : bool_decide _ = true |- _ => apply bool_decide_eq_true in H
         | H : bool_decide _ = false |- _ => apply bool_decide_eq_false in H
         end.

(** The frame being rewritten was pinned at most once and clean if pinned. *)
Ltac old_page :=
  match goal with
  | IH : Forall pinned_clean (pages_ ?s) |- context [page_at zero ?s ?f] =>
      destruct (page_at_Forall pinned_clean s f IH pinned_clean_blank) as [?|[? ?]]
  end.

Lemma reachable_pinned_clean s : reachable zero s → Forall pinned_clean (pages_ s).
Proof.
  induction 1 as [ps n i Hi|c s _ _ IH];
    [|destruct c as [dm|p dm|p d|p dm|dm|p|f d]; simpl].
  - simpl. apply Forall_replicate. by left.
  - unfold_ops; try done; (apply Forall_insert; [done | by right]).
  - unfold_ops; try done; (apply Forall_insert; [done | by right]).
  - unfold_ops; try done; (apply Forall_insert; [done|]); old_page;
      first [done | left; simpl; lia].
  - unfold_ops; try done; (apply Forall_insert; [done|]); old_page;
      first [by left | by right].
  - by apply FlushAllPgsImp_fold.
  - unfold_ops; try done; (apply Forall_insert; [done | by left]).
  - unfold_ops. apply Forall_insert; [done|]. old_page; first [by left | by right].
Qed.

Lemma reachable_allocator_valid s : reachable zero s → allocator_valid s.
Proof.
  induction 1 as [ps n i Hi|c s _ _ IH];
    [|destruct c as [dm|p dm|p d|p dm|dm|p|f d]; simpl].
  - unfold allocator_valid, ValidatePageId; simpl. split_and!; [lia..|].
    apply bool_decide_eq_true. by apply Z.mod_small.
  - destruct IH as (Hidx & Hnext & Hmod). unfold allocator_valid, ValidatePageId in *.
    apply bool_decide_eq_true in Hmod.
    unfold_ops; try (by rewrite bool_decide_eq_true).
    all: split_and!; [lia..|]; apply bool_decide_eq_true.
    all: rewrite <- Hmod.
    all: replace (next_page_id_ s + num_instances_ s)%Z
           with (next_page_id_ s + 1 * num_instances_ s)%Z by lia.
    all: apply Z.mod_add; lia.
  - unfold allocator_valid, ValidatePageId in *. unfold_ops; done.
  - unfold allocator_valid, ValidatePageId in *. unfold_ops; done.
  - unfold allocator_valid, ValidatePageId in *. unfold_ops; done.
  - unfold allocator_valid, ValidatePageId in *.
    destruct (FlushAllPgsImp_fold (map_to_list (page_table_ s)) s dm)
      as (_ & Hn & Hi & Hnext & _).
    unfold FlushAllPgsImp. by rewrite Hn, Hi, Hnext.
  - unfold allocator_valid, ValidatePageId in *. unfold_ops; done.
  - unfold allocator_valid, ValidatePageId in *. unfold_ops; done.
Qed.


Lemma Forall_filter_in_range (P : nat → Prop) `{∀ x, Decision (P x)} (n : nat) l :
  Forall (λ f, f < n) l → Forall (λ f, f < n) (filter P l).
Proof.
  rewrite !Forall_forall. intros Hall x [_ Hx]%list_elem_of_filter. by apply Hall.
Qed.

Lemma Forall_tail_in_range (n : nat) l :
  Forall (λ f, f < n) l → Forall (λ f, f < n) (tail l).
Proof. destruct l; [done|]. by inversion 1. Qed.

Ltac in_range :=
  repeat match goal with
         | H : Forall _ (_ :: _) |- _ => apply Forall_cons in H; destruct H
         | |- length (<[_ := _]> _) = _ => rewrite length_insert
         | |- Forall _ (filter _ _) => apply Forall_filter_in_range
         | |- Forall _ (_ ++ [_]) => apply Forall_app; split
         | |- Forall _ [_] => apply Forall_singleton
         | |- Forall _ (tail _) => apply Forall_tail_in_range
         | |- map_Forall _ (<[_ := _]> _) => apply map_Forall_insert_2
         | |- map_Forall _ (delete _ _) => apply map_Forall_delete
         | Hpt : map_Forall _ ?m, H : ?m !! _ = Some ?f |- ?f < _ => exact (Hpt _ _ H)
         | H : ?x = _ :: _ |- context [?x] => rewrite H
         | H : ?x = [] |- context [?x] => rewrite H
         | |- _ => done
         end.

Lemma reachable_frames_in_range s : reachable zero s → frames_in_range s.
Proof.
  induction 1 as [ps n i Hi|c s _ _ IH];
    [|destruct c as [dm|p dm|p d|p dm|dm|p|f d]; simpl].
  - split_and!; simpl.
    + apply length_replicate.
    + apply Forall_seq. lia.
    + done.
    + apply map_Forall_empty.
  - destruct IH as (Hlen & Hfree & Hlru & Hpt). unfold frames_in_range.
    unfold_ops; try done;
      repeat match goal with H : _ = _ :: _ |- _ => rewrite H in * end;
      split_and!; in_range.
  - destruct IH as (Hlen & Hfree & Hlru & Hpt). unfold frames_in_range.
    unfold_ops; try done;
      repeat match goal with H : _ = _ :: _ |- _ => rewrite H in * end;
      split_and!; in_range.
  - destruct IH as (Hlen & Hfree & Hlru & Hpt). unfold frames_in_range.
    unfold_ops; try done; split_and!; in_range.
  - destruct IH as (Hlen & Hfree & Hlru & Hpt). unfold frames_in_range.
    unfold_ops; try done; split_and!; in_range.
  - destruct IH as (Hlen & Hfree & Hlru & Hpt). unfold frames_in_range.
    destruct (FlushAllPgsImp_fold (map_to_list (page_table_ s)) s dm)
      as (Hps & _ & _ & _ & Hr & Hf & Ht & Hl & _).
    unfold FlushAllPgsImp. by rewrite Hps, Hr, Hf, Ht, Hl.
  - destruct IH as (Hlen & Hfree & Hlru & Hpt). unfold frames_in_range.
    unfold_ops; try done; split_and!; in_range.
  - destruct IH as (Hlen & Hfree & Hlru & Hpt). unfold frames_in_range.
    unfold_ops; try done; split_and!; in_range.
Qed.

(** On a reachable state a pinned frame is pinned exactly once and clean:
    [FetchPgImp] never raises a pin count, and only [UnpinPgImp], which
    unpins, sets a dirty flag. *)
Lemma reachable_pinned_frame_clean s f :
  reachable zero s → (0 < pin_count_ (page_at zero s f))%Z →
  pin_count_ (page_at zero s f) = 1%Z ∧ is_dirty_ (page_at zero s f) = false.
Proof.
  intros Hreach Hpin.
  destruct (page_at_Forall pinned_clean s f (reachable_pinned_clean s Hreach)
              pinned_clean_blank) as [?|?]; [lia|done].
Qed.

End reachable_facts.

(** * Frame accounting without [DeletePage] *)

Section accounting_facts.
Import BufferPoolManagerInstance Reachable Accounting.
Context {Data : Type}.
Variable zero : Data.
Implicit Types (s : BufferPoolManagerInstance.t Data) (dm : DiskManager.t Data).

Lemma partitioned_exactly_one s :
  frames_in_range s → partitioned zero s → exactly_one_state zero s.
Proof.
  intros (_ & Hfree & Hlru & _) (_ & _ & _ & Hf & Hl & Hcover) f Hlt.
  unfold states_of.
  destruct (pinned zero s f) eqn:Hpin.
  - rewrite !bool_decide_eq_false_2; [done| |].
    + intros Hin. apply Hl in Hin. congruence.
    + intros Hin. apply Hf in Hin as [? _]. congruence.
  - destruct (Hcover f Hlt Hpin) as [Hin|Hin].
    + rewrite (bool_decide_eq_true_2 _ Hin).
      rewrite bool_decide_eq_false_2; [done|]. by apply Hf.
    + rewrite (bool_decide_eq_true_2 _ Hin).
      rewrite bool_decide_eq_false_2; [done|].
      intros Hin'. apply Hf in Hin' as [_ ?]. done.
Qed.

Lemma partitioned_frame_count s :
  frames_in_range s → partitioned zero s → frame_count zero s = pool_size_ s.
Proof.
  intros (_ & Hfree & Hlru & _) (_ & Hnd1 & Hnd2 & Hf & Hl & Hcover).
  unfold frame_count, LRUReplacer.Size.
  rewrite <- !length_app.
  transitivity (length (seq 0 (pool_size_ s))); [|apply length_seq].
  apply Permutation_length, NoDup_Permutation.
  - apply NoDup_app. split_and!.
    + apply NoDup_app. split_and!; [done| |done].
      intros f Hin. by apply Hf.
    + intros f [Hin|Hin]%elem_of_app [Hpin _]%list_elem_of_filter.
      * apply Hf in Hin as [Hno _]. by rewrite Hno in Hpin.
      * apply Hl in Hin. by rewrite Hin in Hpin.
    + apply NoDup_filter, NoDup_seq.
  - apply NoDup_seq.
  - intros f. rewrite !elem_of_app, elem_of_seq. unfold pinned_frames.
    rewrite list_elem_of_filter, elem_of_seq. split.
    + rewrite Forall_forall in Hfree, Hlru.
      intros [[Hin|Hin]|[_ Hin]]; [apply Hfree in Hin|apply Hlru in Hin|]; lia.
    + intros [_ Hlt]. simpl in Hlt.
      destruct (pinned zero s f) eqn:Hpin; [right; split; [done|lia]|].
      left. by apply Hcover.
Qed.

Lemma part_ext ps lim free lru pin pin' :
  (∀ f, pin' f = pin f) → part ps lim free lru pin → part ps lim free lru pin'.
Proof.
  intros Hext (? & ? & ? & HF & HL & HC). split_and!; try done.
  - intros f Hin. rewrite Hext. by apply HF.
  - intros f Hin. rewrite Hext. by apply HL.
  - intros f Hlt Hpin. rewrite Hext in Hpin. by apply HC.
Qed.

Lemma filter_ne_notin (f : nat) (l : list nat) :
  f ∉ l → filter (λ id, id ≠ f) l = l.
Proof.
  induction l as [|x l IH]; [done|]. intros Hnot.
  rewrite filter_cons_True by set_solver. f_equal. apply IH. set_solver.
Qed.

(** The front of the free list becomes pinned. *)
Lemma part_take_free ps lim f rest lru pin :
  part ps lim (f :: rest) lru pin →
  part ps lim rest (filter (λ id, id ≠ f) lru) (pin_upd f true pin).
Proof.
  intros (? & [Hnotin Hnd]%NoDup_cons & ? & HF & HL & HC).
  destruct (HF f) as [Hpf HFl]; [set_solver|].
  rewrite (filter_ne_notin f lru HFl). unfold pin_upd. split_and!; try done.
  - intros g Hin. destruct (decide (g = f)) as [->|]; [done|].
    apply HF. set_solver.
  - intros g Hin. destruct (decide (g = f)) as [->|]; [done|]. by apply HL.
  - intros g Hlt Hpin. destruct (decide (g = f)) as [->|Hne]; [done|].
    destruct (HC g Hlt Hpin); set_solver.
Qed.

(** The replacer's victim becomes pinned (the free list is empty). *)
Lemma part_take_victim ps lim f rest pin :
  part ps lim [] (f :: rest) pin →
  part ps lim [] (filter (λ id, id ≠ f) rest) (pin_upd f true pin).
Proof.
  intros (? & ? & [Hnotin Hnd]%NoDup_cons & HF & HL & HC).
  rewrite (filter_ne_notin f rest Hnotin). unfold pin_upd. split_and!; try done.
  - intros g Hin. by apply elem_of_nil in Hin.
  - intros g Hin. destruct (decide (g = f)) as [->|]; [done|].
    apply HL. set_solver.
  - intros g Hlt Hpin. destruct (decide (g = f)) as [->|Hne]; [done|].
    destruct (HC g Hlt Hpin); set_solver.
Qed.

(** A queue of distinct frames that misses a frame of the pool is shorter
    than the pool. *)
Lemma lru_not_full (ps f : nat) (lru : list nat) :
  NoDup lru → Forall (λ g, g < ps) lru → f < ps → f ∉ lru → length lru < ps.
Proof.
  intros Hnd Hall HF Hnot.
  assert (length (f :: lru) ≤ length (seq 0 ps)) as Hle.
  { apply submseteq_length, NoDup_submseteq; [by apply NoDup_cons|].
    intros x Hx. apply elem_of_seq. rewrite Forall_forall in Hall.
    apply elem_of_cons in Hx as [->|Hx]; [lia|]. apply Hall in Hx. lia. }
  rewrite length_seq in Hle. simpl in Hle. lia.
Qed.

(** A pinned frame is unpinned and handed to the replacer. *)
Lemma part_unpin ps lim free lru pin f :
  part ps lim free lru pin → Forall (λ g, g < ps) lru → f < ps → pin f = true →
  part ps lim free
    ((if bool_decide (length lru = lim) then tail lru else lru) ++ [f])
    (pin_upd f false pin).
Proof.
  intros (-> & ? & Hnd & HF & HL & HC) Hall Hlt Hpin.
  assert (f ∉ lru) as Hnot by (intros Hin%HL; congruence).
  assert (f ∉ free) as Hnotf by (intros [? _]%HF; congruence).
  rewrite bool_decide_eq_false_2
    by (pose proof (lru_not_full ps f lru Hnd Hall Hlt Hnot); lia).
  unfold pin_upd. split_and!; try done.
  - apply NoDup_app. split_and!; [done|set_solver|apply NoDup_singleton].
  - intros g Hin. destruct (decide (g = f)) as [->|]; [done|].
    destruct (HF g Hin). set_solver.
  - intros g [Hin|Hin]%elem_of_app.
    + destruct (decide (g = f)) as [->|]; [done|]. by apply HL.
    + rewrite decide_True by set_solver. done.
  - intros g Hg Hpg. destruct (decide (g = f)) as [->|]; [set_solver|].
    destruct (HC g Hg Hpg); set_solver.
Qed.


Lemma pinned_insert s s' f p (b : bool) :
  pages_ s' = <[f := p]> (pages_ s) → f < length (pages_ s) →
  bool_decide (0 < pin_count_ p)%Z = b →
  ∀ g, pinned zero s' g = pin_upd f b (pinned zero s) g.
Proof.
  intros Hpages Hf <- g. unfold pinned, pin_upd, page_at. rewrite Hpages.
  destruct (decide (g = f)) as [->|Hne].
  - by rewrite list_lookup_insert_eq.
  - by rewrite list_lookup_insert_ne.
Qed.

Lemma pinned_same_pin s s' f p :
  pages_ s' = <[f := p]> (pages_ s) → pin_count_ p = pin_count_ (page_at zero s f) →
  ∀ g, pinned zero s' g = pinned zero s g.
Proof.
  intros Hpages Hpin g. unfold pinned, page_at in *. rewrite Hpages.
  destruct (decide (f = g)) as [->|Hne]; [|by rewrite list_lookup_insert_ne].
  destruct (decide (g < length (pages_ s))).
  - rewrite list_lookup_insert_eq by done. simpl. by rewrite Hpin.
  - by rewrite list_insert_ge by lia.
Qed.

Lemma FlushAllPgsImp_pinned (l : list (Z * nat)) : ∀ s dm g,
  pinned zero (foldl (flush_entry zero) (s, dm) l).1 g = pinned zero s g.
Proof.
  induction l as [|[page_id frame_id] l IH]; intros s dm g; simpl; [done|].
  rewrite IH. by eapply (pinned_same_pin s _ frame_id).
Qed.

Lemma reachable_by_reachable allowed s :
  reachable_by zero allowed s → reachable zero s.
Proof. induction 1; by constructor. Qed.

(** Every call but [DeletePage] keeps the three frame states apart. *)
Lemma run_partitioned c s :
  is_DeletePage c = false → reachable zero s →
  partitioned zero s → partitioned zero (run zero c s).
Proof.
  intros Hc Hreach Hpart.
  pose proof (reachable_pinned_clean zero s Hreach) as Hclean.
  destruct (reachable_frames_in_range zero s Hreach) as (Hlen & Hfree & Hlru & Hpt).
  unfold partitioned in *.
  destruct c as [dm|p dm|p d|p dm|dm|p|f d]; simpl; try done.
  - rewrite NewPgImp_eq. destruct (all_pages_pinned zero s); [done|].
    unfold pick. destruct (free_list_ s) as [|f rest] eqn:Hfl.
    + destruct (LRUReplacer.lru_ (replacer_ s)) as [|f rest] eqn:Hl;
        simpl; rewrite ?Hfl, ?Hl; [done|].
      apply Forall_cons in Hlru as [Hf _].
      eapply part_ext; [|by apply part_take_victim].
      by eapply pinned_insert; [|lia|].
    + simpl. apply Forall_cons in Hfree as [Hf _].
      eapply part_ext; [|by apply part_take_free].
      by eapply pinned_insert; [|lia|].
  - rewrite FetchPgImp_eq. destruct (page_table_ s !! p); [done|].
    unfold pick. destruct (free_list_ s) as [|f rest] eqn:Hfl.
    + destruct (LRUReplacer.lru_ (replacer_ s)) as [|f rest] eqn:Hl;
        simpl; rewrite ?Hfl, ?Hl; [done|].
      apply Forall_cons in Hlru as [Hf _].
      eapply part_ext; [|by apply part_take_victim].
      by eapply pinned_insert; [|lia|].
    + simpl. apply Forall_cons in Hfree as [Hf _].
      eapply part_ext; [|by apply part_take_free].
      by eapply pinned_insert; [|lia|].
  - unfold UnpinPgImp. destruct (page_table_ s !! p) as [f|] eqn:Hres; [|done].
    pose proof (Hpt _ _ Hres) as Hf. simpl in Hf.
    case_bool_decide as Hzero; [done|].
    destruct (page_at_Forall zero pinned_clean s f Hclean (pinned_clean_blank zero))
      as [?|[Hone _]]; [done|].
    rewrite Hone. simpl.
    assert (pinned zero s f = true) as Hpinned
      by (unfold pinned; rewrite Hone; by apply bool_decide_eq_true).
    assert (f ∉ LRUReplacer.lru_ (replacer_ s)) as Hnot.
    { destruct Hpart as (_ & _ & _ & _ & HL & _). intros Hin%HL. congruence. }
    unfold LRUReplacer.Unpin. simpl. rewrite (bool_decide_eq_false_2 _ Hnot). simpl.
    eapply part_ext; [|by apply (part_unpin _ _ _ _ _ f Hpart)].
    by eapply pinned_insert; [|lia|].
  - unfold FlushPgImp. destruct (page_table_ s !! p) as [f|]; [|done]. simpl.
    eapply part_ext; [|exact Hpart]. by eapply (pinned_same_pin s _ f).
  - unfold FlushAllPgsImp.
    destruct (FlushAllPgsImp_fold zero (map_to_list (page_table_ s)) s dm)
      as (-> & _ & _ & _ & -> & -> & _).
    eapply part_ext; [|exact Hpart]. apply FlushAllPgsImp_pinned.
  - unfold write_data. simpl.
    eapply part_ext; [|exact Hpart]. by eapply (pinned_same_pin s _ f).
Qed.

Lemma new_partitioned pool_size n i : partitioned zero (new zero pool_size n i).
Proof.
  unfold partitioned, part; simpl. split_and!; [done|apply NoDup_seq|apply NoDup_nil_2|..].
  - intros f Hin%elem_of_seq. split; [|apply not_elem_of_nil].
    unfold pinned, page_at; simpl. rewrite lookup_replicate_2 by lia. done.
  - intros f Hin. by apply elem_of_nil in Hin.
  - intros f Hlt _. left. apply elem_of_seq. lia.
Qed.

(** X10: without [DeletePage], every frame is in exactly one of the three
    states (free list, replacer queue, pinned) and the three counts add up
    to the pool size. *)
Lemma accounting_without_DeletePage s :
  reachable_by zero (λ c, is_DeletePage c = false) s →
  exactly_one_state zero s ∧ frame_count zero s = pool_size_ s.
Proof.
  intros Hreach.
  assert (partitioned zero s) as Hpart.
  { induction Hreach as [ps n i Hi|c s Hc Hreach IH]; [apply new_partitioned|].
    apply run_partitioned; [done| |done]. by eapply reachable_by_reachable. }
  pose proof (reachable_frames_in_range zero s (reachable_by_reachable _ _ Hreach)).
  split; [by apply partitioned_exactly_one | by apply partitioned_frame_count].
Qed.

End accounting_facts.

Section instance_claims.
Import BufferPoolManagerInstance.
Context {Data : Type}.
Variable zero : Data.
Implicit Types (s : BufferPoolManagerInstance.t Data) (dm : DiskManager.t Data).

(** C8: when [page_id] is in the page table, [FetchPgImp] returns the frame
    recorded there and leaves the instance and the disk exactly as they
    were; in particular the frame's pin count is not incremented and the
    replacer is not touched. *)
Theorem FetchPgImp_cache_hit s dm page_id frame_id :
  page_table_ s !! page_id = Some frame_id →
  FetchPgImp zero page_id s dm = (Some frame_id, s, dm)
  ∧ pin_count_ (page_at zero (FetchPgImp zero page_id s dm).1.2 frame_id)
    = pin_count_ (page_at zero s frame_id)
  ∧ replacer_ (FetchPgImp zero page_id s dm).1.2 = replacer_ s.
Proof.
  intros Hhit.
  assert (FetchPgImp zero page_id s dm = (Some frame_id, s, dm)) as ->; [|done].
  unfold FetchPgImp. by rewrite Hhit.
Qed.

(** C10: whenever [NewPgImp] or [FetchPgImp] returns [nullptr], the whole
    instance (page table, free list, replacer, every frame, the
    next-page-id allocator) and the disk are exactly as before the call. *)
Theorem NewPgImp_FetchPgImp_failure_atomic s dm page_id :
  ((NewPgImp zero s dm).1.1 = None → NewPgImp zero s dm = (None, s, dm))
  ∧ ((FetchPgImp zero page_id s dm).1.1 = None →
     FetchPgImp zero page_id s dm = (None, s, dm)).
Proof. split; [apply NewPgImp_None | apply FetchPgImp_None]. Qed.

(** The three branches of [UnpinPgImp] on any state: for a resident page
    with [pin_count > 0] it returns true, decrements the pin count by one,
    assigns the caller's [is_dirty] to the dirty flag, and calls the
    replacer's [Unpin] exactly when the pin count reaches 0; everything
    else is unchanged.  It returns false and changes nothing when the page
    is not resident or its pin count is 0. *)
Lemma UnpinPgImp_cases s page_id user_is_dirty :
  (∀ f, page_table_ s !! page_id = Some f → f < length (pages_ s) →
        (0 < pin_count_ (page_at zero s f))%Z →
        let old := page_at zero s f in
        let '(r, s') := UnpinPgImp zero page_id user_is_dirty s in
        r = true
        ∧ page_at zero s' f
          = mkPage (data_ old) (page_id_ old) (pin_count_ old - 1) user_is_dirty
        ∧ (∀ g, g ≠ f → page_at zero s' g = page_at zero s g)
        ∧ replacer_ s' = (if bool_decide (pin_count_ old - 1 = 0)%Z
                          then LRUReplacer.Unpin f (replacer_ s)
                          else replacer_ s)
        ∧ page_table_ s' = page_table_ s
        ∧ free_list_ s' = free_list_ s
        ∧ next_page_id_ s' = next_page_id_ s)
  ∧ (page_table_ s !! page_id = None →
     UnpinPgImp zero page_id user_is_dirty s = (false, s))
  ∧ (∀ f, page_table_ s !! page_id = Some f →
          pin_count_ (page_at zero s f) = 0%Z →
          UnpinPgImp zero page_id user_is_dirty s = (false, s)).
Proof.
  split; [|split].
  - intros f Hres Hf Hpin old. unfold UnpinPgImp. rewrite Hres.
    rewrite bool_decide_eq_false_2 by lia. simpl.
    destruct (bool_decide (pin_count_ (page_at zero s f) - 1 = 0)%Z) eqn:Hz;
      subst old; simpl; rewrite ?Hz;
      (split_and!; [done| by apply set_page_page_at
                   | by intros; apply set_page_page_at_ne | done..]).
  - intros Hnone. unfold UnpinPgImp. by rewrite Hnone.
  - intros f Hres Hpin. unfold UnpinPgImp. rewrite Hres.
    by rewrite bool_decide_eq_true_2.
Qed.

(** C3: on every state that the constructor, the public operations and
    writes through a [Page*] produce, for a resident page with
    [pin_count > 0], [UnpinPgImp] returns true, decrements the pin count
    by one, leaves the dirty flag at (old flag OR [is_dirty]), and calls
    the replacer's [Unpin] exactly when the pin count reaches 0;
    everything else is unchanged.  It returns false and changes nothing
    when the page is not resident or its pin count is 0.  (The source
    assigns [is_dirty] to the flag; a pinned frame is clean on these
    states, so the assignment and the OR agree.) *)
Theorem UnpinPgImp_ors_dirty_flag s page_id user_is_dirty :
  Reachable.reachable zero s →
  (∀ f, page_table_ s !! page_id = Some f →
        (0 < pin_count_ (page_at zero s f))%Z →
        let old := page_at zero s f in
        let '(r, s') := UnpinPgImp zero page_id user_is_dirty s in
        r = true
        ∧ page_at zero s' f
          = mkPage (data_ old) (page_id_ old) (pin_count_ old - 1)
                   (is_dirty_ old || user_is_dirty)
        ∧ (∀ g, g ≠ f → page_at zero s' g = page_at zero s g)
        ∧ replacer_ s' = (if bool_decide (pin_count_ old - 1 = 0)%Z
                          then LRUReplacer.Unpin f (replacer_ s)
                          else replacer_ s)
        ∧ page_table_ s' = page_table_ s
        ∧ free_list_ s' = free_list_ s
        ∧ next_page_id_ s' = next_page_id_ s)
  ∧ (page_table_ s !! page_id = None →
     UnpinPgImp zero page_id user_is_dirty s = (false, s))
  ∧ (∀ f, page_table_ s !! page_id = Some f →
          pin_count_ (page_at zero s f) = 0%Z →
          UnpinPgImp zero page_id user_is_dirty s = (false, s)).
Proof.
  intros Hreach.
  destruct (UnpinPgImp_cases s page_id user_is_dirty) as (Hpinned & Habsent & Hzero).
  split; [|by split].
  intros f Hres Hpin old.
  destruct (reachable_frames_in_range zero s Hreach) as (Hlen & _ & _ & Hpt).
  assert (f < length (pages_ s)) as Hf.
  { rewrite Hlen. exact (Hpt _ _ Hres). }
  destruct (reachable_pinned_frame_clean zero s f Hreach Hpin) as [_ Hclean].
  specialize (Hpinned f Hres Hf Hpin). subst old. cbv zeta in Hpinned.
  destruct (UnpinPgImp zero page_id user_is_dirty s) as [r s'].
  by rewrite Hclean.
Qed.

End instance_claims.

Section instance_runs.
Import BufferPoolManagerInstance Scenario Accounting.

(** The pool-saturation scenario of the spec: three frames, three new
    pages 0, 1, 2; a fourth [NewPage] fails; after [UnpinPage(1, false)] a
    new page 3 takes the frame of page 1, and page 1 can no longer be
    fetched. *)
Example pool_saturation :
  let s := new zero_page 3 1 0 in
  let '(r1, s, dm) := NewPgImp zero_page s DiskManager.empty in
  let '(r2, s, dm) := NewPgImp zero_page s dm in
  let '(r3, s, dm) := NewPgImp zero_page s dm in
  let '(r4, s, dm) := NewPgImp zero_page s dm in
  let '(u, s) := UnpinPgImp zero_page 1 false s in
  let '(r5, s, dm) := NewPgImp zero_page s dm in
  let '(r6, s, dm) := FetchPgImp zero_page 1 s dm in
  r1 = Some (0, 0%Z) ∧ r2 = Some (1, 1%Z) ∧ r3 = Some (2, 2%Z) ∧ r4 = None
  ∧ u = true ∧ r5 = Some (1, 3%Z) ∧ r6 = None
  ∧ pin_count_ (page_at zero_page s 1) = 1%Z.
Proof. vm_compute. split_and!; reflexivity. Qed.

(** A cache hit on page 0 while it sits unpinned in the replacer. *)
Lemma FetchPgImp_cache_hit_witness :
  page_table_ unpinned_page_0 !! 0%Z = Some 0
  ∧ FetchPgImp zero_page 0 unpinned_page_0 DiskManager.empty
    = (Some 0, unpinned_page_0, DiskManager.empty).
Proof.
  split; [vm_compute; reflexivity|].
  apply (FetchPgImp_cache_hit zero_page unpinned_page_0 DiskManager.empty 0%Z 0).
  vm_compute; reflexivity.
Defined.

(** One frame, pinned by page 0: both [NewPgImp] and a [FetchPgImp] of an
    absent page fail and leave the state alone. *)
Lemma NewPgImp_FetchPgImp_failure_atomic_witness :
  let s := (NewPgImp zero_page (new zero_page 1 1 0) DiskManager.empty).1.2 in
  NewPgImp zero_page s DiskManager.empty = (None, s, DiskManager.empty)
  ∧ FetchPgImp zero_page 5 s DiskManager.empty = (None, s, DiskManager.empty).
Proof.
  intros s.
  destruct (NewPgImp_FetchPgImp_failure_atomic zero_page s DiskManager.empty 5%Z)
    as [HNew HFetch].
  split; [apply HNew | apply HFetch]; vm_compute; reflexivity.
Defined.

(** One frame, pinned by the new page 0: [UnpinPage(0, true)] succeeds,
    leaves pin count 0 and the dirty flag set (false OR true), and queues
    frame 0 in the replacer; unpinning the absent page 3, or page 0 a
    second time, fails. *)
Lemma UnpinPgImp_ors_dirty_flag_witness :
  let s := Reachable.run zero_page (Reachable.Call_NewPage DiskManager.empty)
             (new zero_page 1 1 0) in
  let s' := Reachable.run zero_page (Reachable.Call_UnpinPage 0 true) s in
  (UnpinPgImp zero_page 0 true s).1 = true
  ∧ page_at zero_page s' 0 = mkPage zero_page 0 0 true
  ∧ replacer_ s' = LRUReplacer.mk [0] 1
  ∧ UnpinPgImp zero_page 3 true s = (false, s)
  ∧ UnpinPgImp zero_page 0 true s' = (false, s').
Proof.
  intros s s'.
  assert (Reachable.reachable zero_page s) as Hs.
  { apply Reachable.reachable_run; [exact I|]. apply Reachable.reachable_new. lia. }
  assert (Reachable.reachable zero_page s') as Hs'.
  { apply Reachable.reachable_run; [exact I|]. exact Hs. }
  destruct (UnpinPgImp_ors_dirty_flag zero_page s 0%Z true Hs) as (Hpinned & _ & _).
  specialize (Hpinned 0).
  destruct (UnpinPgImp_ors_dirty_flag zero_page s 3%Z true Hs) as (_ & Habsent & _).
  destruct (UnpinPgImp_ors_dirty_flag zero_page s' 0%Z true Hs') as (_ & _ & Hzero).
  specialize (Hzero 0).
  assert (s' = (UnpinPgImp zero_page 0 true s).2) as Hrun by reflexivity.
  destruct (UnpinPgImp zero_page 0 true s) as [r t] eqn:Hunpin.
  cbn [fst snd] in *.
  destruct Hpinned as (Hr & Hpage & _ & Hrepl & _);
    [vm_compute; reflexivity | vm_compute; reflexivity |].
  split_and!.
  - exact Hr.
  - rewrite Hrun, Hpage. vm_compute; reflexivity.
  - rewrite Hrun, Hrepl. vm_compute; reflexivity.
  - apply Habsent. vm_compute; reflexivity.
  - apply Hzero.
    + vm_compute; reflexivity.
    + vm_compute; reflexivity.
Defined.

(** C1: one frame holds page 0, unpinned and dirty with [0xAB] in byte 0.
    [NewPgImp] evicts it (and so does a [FetchPgImp] of page 7): the frame
    is reused, the dirty flag is cleared and the page-table entry removed,
    but no [WritePage] reaches the disk manager and page 0 is not on disk.
    Once the new page is unpinned, fetching page 0 again reads zeroes. *)
Theorem dirty_victim_is_not_written_back :
  let '(s, dm) := dirty_page_0 in
  let victim := page_at zero_page s 0 in
  let '(r, s', dm') := NewPgImp zero_page s dm in
  let '(r7, s7, dm7) := FetchPgImp zero_page 7 s dm in
  let '(r0, s0, _) := FetchPgImp zero_page 0 (UnpinPgImp zero_page 1 false s').2 dm' in
  free_list_ s = [] ∧ LRUReplacer.lru_ (replacer_ s) = [0]
  ∧ page_id_ victim = 0%Z ∧ is_dirty_ victim = true
  ∧ data_ victim !! 0 = Some 171%Z
  ∧ r = Some (0, 1%Z)
  ∧ is_dirty_ (page_at zero_page s' 0) = false
  ∧ page_table_ s' !! 0%Z = None
  ∧ DiskManager.log dm' = [] ∧ DiskManager.contents dm' !! 0%Z = None
  ∧ r7 = Some 0
  ∧ DiskManager.log dm7 = [] ∧ DiskManager.contents dm7 !! 0%Z = None
  ∧ r0 = Some 0
  ∧ data_ (page_at zero_page s0 0) !! 0 = Some 0%Z.
Proof. vm_compute. split_and!; reflexivity. Qed.

(** C2: one frame; page 0 is created, unpinned and deleted.  [DeletePgImp]
    succeeds and pushes frame 0 on the free list without taking it out of
    the replacer: the frame is in two states at once and the count is 2
    for a pool of size 1. *)
Theorem DeletePgImp_leaves_frame_in_replacer :
  let s := unpinned_page_0 in
  let '(r, s') := DeletePgImp zero_page 0 s in
  states_of zero_page s 0 = 1 ∧ frame_count zero_page s = pool_size_ s
  ∧ pin_count_ (page_at zero_page s 0) = 0%Z
  ∧ r = true
  ∧ free_list_ s' = [0] ∧ LRUReplacer.lru_ (replacer_ s') = [0]
  ∧ states_of zero_page s' 0 = 2
  ∧ frame_count zero_page s' = 2 ∧ pool_size_ s' = 1.
Proof. vm_compute. split_and!; reflexivity. Qed.

End instance_runs.

(** * Properties of the parallel buffer pool manager *)

Section parallel_claims.
Import ParallelBufferPoolManager.
Context {Data : Type}.
Variable zero : Data.
Implicit Types (s : ParallelBufferPoolManager.t Data) (dm : DiskManager.t Data).

Lemma GetBufferPoolManager_mod s page_id :
  0 < length (bpms_ s) → (0 ≤ page_id < 2 ^ 31)%Z →
  GetBufferPoolManager page_id s = Z.to_nat (page_id `mod` Z.of_nat (length (bpms_ s)))
  ∧ GetBufferPoolManager page_id s < length (bpms_ s).
Proof.
  intros Hn Hp. unfold GetBufferPoolManager.
  rewrite (Z.mod_small page_id (2 ^ 64)) by lia.
  split; [done|].
  pose proof (Z.mod_pos_bound page_id (Z.of_nat (length (bpms_ s)))). lia.
Qed.

Lemma next_index_cases j n :
  j < n → (j + 1 < n ∧ (j + 1) `mod` n = j + 1) ∨ (j + 1 = n ∧ (j + 1) `mod` n = 0).
Proof.
  intros Hj. destruct (decide (j + 1 < n)) as [Hlt|Hge].
  - left. split; [done|]. by apply Nat.mod_small.
  - right. assert (j + 1 = n) as -> by lia. split; [done|]. apply Nat.Div0.mod_same.
Qed.

(** The loop, started with [k] instances left to probe, leaves through its
    [break] exactly when all [k] have failed. *)
Lemma NewPgImp_loop_probe k : ∀ fuel j s dm,
  k ≤ fuel → 1 ≤ k ≤ length (bpms_ s) →
  last_index s < length (bpms_ s) → j < length (bpms_ s) →
  (j + k = last_index s + length (bpms_ s) ∨ j + k = last_index s) →
  NewPgImp_loop zero fuel j s dm =
  Some (match probe zero k j s dm with
        | Some (i, frame_id, page_id, b, dm') =>
            (Some (i, frame_id), page_id,
             mk (<[i := b]> (bpms_ s)) ((last_index s + 1) `mod` length (bpms_ s)), dm')
        | None =>
            (None, INVALID_PAGE_ID,
             mk (bpms_ s) ((last_index s + 1) `mod` length (bpms_ s)), dm)
        end).
Proof.
  induction k as [|k IH]; intros fuel j s dm Hfuel Hk Hlast Hj Hpos; [lia|].
  destruct fuel as [|fuel]; [lia|]. simpl.
  rewrite (Nat.mod_small j) by done.
  destruct (lookup_lt_is_Some_2 (bpms_ s) j Hj) as [b Hb]. rewrite Hb.
  destruct (BufferPoolManagerInstance.NewPgImp zero b dm) as [[r b'] dm'] eqn:Hnew.
  destruct r as [[frame_id page_id]|]; [done|].
  pose proof (NewPgImp_None zero b dm) as Hatomic.
  rewrite Hnew in Hatomic. specialize (Hatomic eq_refl). simplify_eq.
  rewrite (list_insert_id _ _ _ Hb).
  destruct (next_index_cases j (length (bpms_ s)) Hj) as [[Hlt ->]|[Heq ->]].
  - case_bool_decide as Hstop.
    + assert (k = 0) as -> by lia. done.
    + replace {| bpms_ := bpms_ s; last_index := last_index s |} with s
        by (by destruct s).
      apply IH; lia.
  - case_bool_decide as Hstop.
    + assert (k = 0) as -> by lia. done.
    + replace {| bpms_ := bpms_ s; last_index := last_index s |} with s
        by (by destruct s).
      apply IH; lia.
Qed.

(** The cursor stays inside the vector of instances. *)
Lemma cursor_in_range_new num_instances pool_size :
  0 < num_instances →
  ParallelReachable.cursor_in_range (new zero num_instances pool_size).
Proof.
  intros Hn. unfold ParallelReachable.cursor_in_range; simpl.
  rewrite length_map, length_seq. lia.
Qed.

Lemma cursor_in_range_NewPage s dm :
  ParallelReachable.cursor_in_range s →
  ParallelReachable.cursor_in_range (NewPage_spec zero s dm).1.2.
Proof.
  intros [Hn Hlast]. unfold ParallelReachable.cursor_in_range, NewPage_spec.
  pose proof (Nat.mod_upper_bound (last_index s + 1) (length (bpms_ s))).
  repeat case_match; simpl; rewrite ?length_insert; lia.
Qed.

Lemma cursor_in_range_at_instance {R : Type} i (dflt : R) op s dm :
  ParallelReachable.cursor_in_range s →
  ParallelReachable.cursor_in_range (at_instance i dflt op s dm).1.2.
Proof.
  intros [Hn Hlast]. unfold ParallelReachable.cursor_in_range, at_instance.
  repeat case_match; simplify_eq/=; rewrite ?length_insert; lia.
Qed.

(** C9: with [N ≥ 1] instances, [FetchPage], [UnpinPage], [FlushPage] and
    [DeletePage] run on instance [page_id mod N] and only on it; [NewPage]
    probes the instances from [last_index] onwards modulo [N], answers
    with the first success, fails after [N] failures, and in both cases
    leaves [last_index] advanced by one modulo [N] (the loop ends within
    [N] iterations). *)
Theorem parallel_routing_and_round_robin s dm page_id is_dirty fuel :
  0 < length (bpms_ s) → last_index s < length (bpms_ s) →
  (0 ≤ page_id < 2 ^ 31)%Z → length (bpms_ s) ≤ fuel →
  let i := Z.to_nat (page_id `mod` Z.of_nat (length (bpms_ s))) in
  (∃ b, bpms_ s !! i = Some b
     ∧ FetchPgImp zero page_id s dm =
       (let '(r, b', dm') := BufferPoolManagerInstance.FetchPgImp zero page_id b dm in
        (pair i <$> r, mk (<[i := b']> (bpms_ s)) (last_index s), dm'))
     ∧ UnpinPgImp zero page_id is_dirty s dm =
       (let '(r, b') := BufferPoolManagerInstance.UnpinPgImp zero page_id is_dirty b in
        (r, mk (<[i := b']> (bpms_ s)) (last_index s), dm))
     ∧ FlushPgImp zero page_id s dm =
       (let '(r, b', dm') := BufferPoolManagerInstance.FlushPgImp zero page_id b dm in
        (r, mk (<[i := b']> (bpms_ s)) (last_index s), dm'))
     ∧ DeletePgImp zero page_id s dm =
       (let '(r, b') := BufferPoolManagerInstance.DeletePgImp zero page_id b in
        (r, mk (<[i := b']> (bpms_ s)) (last_index s), dm)))
  ∧ NewPgImp zero fuel s dm = Some (NewPage_spec zero s dm)
  ∧ last_index (NewPage_spec zero s dm).1.2
    = (last_index s + 1) `mod` length (bpms_ s).
Proof.
  intros Hn Hlast Hp Hfuel i.
  destruct (GetBufferPoolManager_mod s page_id Hn Hp) as [Hidx Hlt].
  fold i in Hidx. split; [|split].
  - rewrite Hidx in Hlt.
    destruct (lookup_lt_is_Some_2 (bpms_ s) i Hlt) as [b Hb].
    exists b. split; [done|].
    unfold FetchPgImp, UnpinPgImp, FlushPgImp, DeletePgImp, at_instance.
    rewrite Hidx, Hb. split_and!; repeat case_match; simplify_eq; done.
  - unfold NewPgImp, NewPage_spec.
    rewrite (NewPgImp_loop_probe (length (bpms_ s))) by lia.
    repeat case_match; done.
  - unfold NewPage_spec. repeat case_match; done.
Qed.

End parallel_claims.

Section parallel_runs.
Import ParallelBufferPoolManager Scenario.

(** The sharded-allocation scenario of the spec: with four instances,
    five [NewPage] calls are answered by instances 0, 1, 2, 3, 0 with the
    page ids 0, 1, 2, 3, 4. *)
Example sharded_allocation :
  let step '(ids, s, dm) :=
    let '(r, page_id, s, dm) := NewPage_spec zero_page s dm in
    (ids ++ [(fst <$> r, page_id)], s, dm) in
  (step (step (step (step (step
     ([], new zero_page 4 2, DiskManager.empty)))))).1.1
  = [(Some 0, 0%Z); (Some 1, 1%Z); (Some 2, 2%Z); (Some 3, 3%Z); (Some 0, 4%Z)].
Proof. vm_compute. reflexivity. Qed.

(** Two instances of one frame each, after one [NewPage]: instance 0 is
    full and [last_index] is 1.  Page 3 is routed to instance 1, and the
    next [NewPage] is answered by instance 1 with page 1. *)
Lemma parallel_routing_and_round_robin_witness :
  let s := ((NewPage_spec zero_page (new zero_page 2 1) DiskManager.empty).1.2) in
  GetBufferPoolManager 3 s = 1
  ∧ NewPgImp zero_page 2 s DiskManager.empty
    = Some (NewPage_spec zero_page s DiskManager.empty)
  ∧ (NewPage_spec zero_page s DiskManager.empty).1.1 = (Some (1, 0), 1%Z)
  ∧ last_index (NewPage_spec zero_page s DiskManager.empty).1.2 = 0.
Proof.
  intros s.
  destruct (parallel_routing_and_round_robin zero_page s DiskManager.empty 3%Z false 2)
    as (_ & Hnew & Hlast); [vm_compute; lia | vm_compute; lia | lia | vm_compute; lia |].
  split_and!.
  - vm_compute; reflexivity.
  - exact Hnew.
  - vm_compute; reflexivity.
  - rewrite Hlast. vm_compute; reflexivity.
Defined.

End parallel_runs.

(** * Runs of the extendible hash table

    Each run is proved for both values of [keep_occupied], so none depends
    on how the bucket page marks a removed slot. *)

Section table_runs.
Import ExtendibleHashTable TableScenario Coherence.
Import HashTableBucketPage (Live).

(** C4: the keys 0, 4, 2, 12, 1, 9 leave a coherent directory of global
    depth 3 in which slots 1, 3, 5, 7 share one full bucket of local depth
    1.  Inserting 25 splits that bucket without doubling the directory:
    only slots 1 and 3 are rewritten, so slot 5 (local depth 1) and slot 1
    (local depth 2) agree on their low local-depth bits and differ in
    local depth.  When [Insert] has returned (true), slots 7 and 1 still
    clash. *)
Theorem split_without_doubling_breaks_coherence (keep_occupied : bool) :
  match table_after keep_occupied [0; 4; 2; 12; 1; 9]%Z with
  | Ok (ht, rs) e0 =>
      match split keep_occupied ht 25 e0, Insert keep_occupied ht 25 250 e0 with
      | Ok _ e1, Ok r e2 =>
          rs = [true; true; true; true; true; true]
          ∧ coherent <$> directory_of ht e0 = Some true
          ∧ global_depth_of ht e0 = Some 3%Z
          ∧ slot_of ht e0 1 = Some (2, 1)%Z
          ∧ global_depth_of ht e1 = Some 3%Z
          ∧ slot_of ht e1 1 = Some (2, 2)%Z
          ∧ slot_of ht e1 5 = Some (2, 1)%Z
          ∧ low_bits 1 2 = low_bits 5 1
          ∧ coherent <$> directory_of ht e1 = Some false
          ∧ r = true
          ∧ global_depth_of ht e2 = Some 4%Z
          ∧ slot_of ht e2 1 = Some (2, 4)%Z
          ∧ slot_of ht e2 7 = Some (2, 1)%Z
          ∧ low_bits 1 4 = low_bits 7 1
          ∧ coherent <$> directory_of ht e2 = Some false
      | _, _ => False
      end
  | _ => False
  end.
Proof. destruct keep_occupied; vm_compute; split_and!; reflexivity. Qed.

(** C5: the keys 0, 512, 256 leave global depth [MAX_DEPTH] = 9 and a full
    bucket under slot 0 whose two keys agree modulo 2^9.  Inserting 1024
    (also 0 modulo 2^9) never returns false: with no fuel at all the call
    has not begun, and with any fuel it raises the global depth to 10 and
    indexes the directory arrays at slot 512, outside their bounds. *)
Theorem Insert_at_max_depth_leaves_the_directory
    (keep_occupied : bool) (fuel : nat) (value : Z) :
  match table_after keep_occupied [0; 512; 256]%Z with
  | Ok (ht, rs) e0 =>
      rs = [true; true; true]
      ∧ global_depth_of ht e0 = Some HashTableDirectoryPage.MAX_DEPTH
      ∧ slot_of ht e0 0 = Some (1, 9)%Z
      ∧ bucket_of 1 e0 = Some [Live 0 0; Live 512 5120]%Z
      ∧ match ExtendibleHashTable.Insert IntComparator hash_fn BUCKET_ARRAY_SIZE
                keep_occupied fuel ht 1024%Z value e0 with
        | Ok _ _ => False
        | Fault f e1 =>
            f = OutOfBounds
            ∧ global_depth_of ht e1 = Some (HashTableDirectoryPage.MAX_DEPTH + 1)%Z
        | OutOfFuel => fuel = 0
        end
  | _ => False
  end.
Proof. destruct keep_occupied, fuel; vm_compute; split_and!; reflexivity. Qed.

(** The same happens from a fresh table with one key under three values:
    the pairs (0, 1) and (0, 2) fill the bucket of slot 0, and inserting
    (0, 3) splits nine times without ever separating them. *)
Example Insert_of_one_key_leaves_the_directory (keep_occupied : bool) (fuel : nat) :
  match bind new (λ ht, bind (insert_all keep_occupied ht [(0, 1); (0, 2)]%Z)
                          (λ rs, ret (ht, rs))) pool with
  | Ok (ht, rs) e0 =>
      rs = [true; true]
      ∧ match ExtendibleHashTable.Insert IntComparator hash_fn BUCKET_ARRAY_SIZE
                keep_occupied fuel ht 0%Z 3%Z e0 with
        | Ok _ _ => False
        | Fault f e1 =>
            f = OutOfBounds
            ∧ global_depth_of ht e1 = Some (HashTableDirectoryPage.MAX_DEPTH + 1)%Z
        | OutOfFuel => fuel < 9
        end
  | _ => False
  end.
Proof.
  destruct keep_occupied;
    do 9 (destruct fuel as [|fuel]; [vm_compute; split; [reflexivity|lia]|]);
    vm_compute; split_and!; reflexivity.
Qed.

(** C6: after the keys 0 and 4, inserting 12 splits twice.  The page of
    the first split (page 3) is pinned by [NewPage] and never unpinned: its
    pin count is 1 when [Insert] returns.  The unpins that [SplitInsert]
    issues carry the directory indices 0, 2 and 0, 4 as page ids; page 2
    is unpinned although the operation never fetched it. *)
Theorem SplitInsert_unpins_directory_indices (keep_occupied : bool) :
  match table_after keep_occupied [0; 4]%Z with
  | Ok (ht, rs) e0 =>
      match Insert keep_occupied ht 12 120 e0 with
      | Ok r e1 =>
          rs = [true; true] ∧ r = true
          ∧ trace e1 =
            [ EvFetchPage 0 true; EvFetchPage 1 true;
              EvUnpinPage 0 false false; EvUnpinPage 1 false false;
              EvFetchPage 0 true; EvFetchPage 1 true; EvNewPage (Some 3%Z);
              EvUnpinPage 0 true false; EvUnpinPage 0 true false;
              EvUnpinPage 2 true false;
              EvFetchPage 0 true; EvFetchPage 1 true;
              EvUnpinPage 0 false false; EvUnpinPage 1 false false;
              EvFetchPage 0 true; EvFetchPage 1 true; EvNewPage (Some 4%Z);
              EvUnpinPage 0 true false; EvUnpinPage 0 true false;
              EvUnpinPage 4 true true;
              EvFetchPage 0 true; EvFetchPage 4 true;
              EvUnpinPage 0 false false; EvUnpinPage 4 true false ]
          ∧ pin_count_of 3 e0 = None
          ∧ pin_count_of 3 e1 = Some 1%Z
          ∧ slot_of ht e1 2 = Some (3, 2)%Z
          ∧ slot_of ht e1 4 = Some (4, 3)%Z
      | _ => False
      end
  | _ => False
  end.
Proof. destruct keep_occupied; vm_compute; split_and!; reflexivity. Qed.

(** C7: the keys 0, 4, 2, 1, 5, 3 are inserted (each [Insert] returns
    true) and [GetValue(3)] finds 30.  Inserting 13 returns true and
    splits the bucket of slot 1 without doubling; the split overwrites
    slot 3.  No [Remove] was ever called, yet [GetValue(3)] now returns
    nothing. *)
Theorem GetValue_loses_pair_after_split (keep_occupied : bool) :
  match table_after keep_occupied [0; 4; 2; 1; 5; 3]%Z with
  | Ok (ht, rs) e0 =>
      match bind (GetValue ht 3) (λ before,
            bind (Insert keep_occupied ht 13 130) (λ r,
            bind (GetValue ht 3) (λ after, ret (before, r, after)))) e0 with
      | Ok (before, r, after) _ =>
          rs = [true; true; true; true; true; true]
          ∧ before = (true, [30%Z])
          ∧ r = true
          ∧ after = (false, [])
      | _ => False
      end
  | _ => False
  end.
Proof. destruct keep_occupied; vm_compute; split_and!; reflexivity. Qed.

End table_runs.

(** * Properties of the replacer *)

Section replacer_facts.
Import LRUReplacer ReplacerRuns.

Lemma Unpin_absent f r :
  f ∉ lru_ r → length (lru_ r) < lru_limit_ r →
  Unpin f r = LRUReplacer.mk (lru_ r ++ [f]) (lru_limit_ r).
Proof.
  intros Hnot Hlen. unfold Unpin.
  rewrite bool_decide_eq_false_2 by done.
  by rewrite bool_decide_eq_false_2 by lia.
Qed.

Lemma unpin_all_fresh l : ∀ r,
  NoDup (lru_ r ++ l) → length (lru_ r ++ l) ≤ lru_limit_ r →
  unpin_all l r = LRUReplacer.mk (lru_ r ++ l) (lru_limit_ r).
Proof.
  induction l as [|f l IH]; intros r Hnd Hlen; simpl.
  - rewrite app_nil_r. by destruct r.
  - rewrite length_app in Hlen. simpl in Hlen.
    rewrite Unpin_absent; [|apply NoDup_app in Hnd as (_ & Hd & _)|lia].
    + rewrite IH; simpl; rewrite <- ?app_assoc; simpl; [done..|].
      rewrite !length_app. simpl. lia.
    + intros Hin. apply (Hd f Hin). set_solver.
Qed.

Lemma victims_all l lim :
  victims (length l) (LRUReplacer.mk l lim) = (Some <$> l, LRUReplacer.mk [] lim).
Proof.
  induction l as [|f l IH]; simpl; [done|]. by rewrite IH.
Qed.

(** X1: a replacer built for [n > 0] frames never holds a frame twice and
    never holds more than [n] frames, whatever sequence of [Victim], [Pin]
    and [Unpin] calls it receives. *)
Theorem replacer_queue_bounded (n : nat) (calls : list call) :
  0 < n →
  let r := foldl run (new n) calls in
  NoDup (lru_ r) ∧ Size r ≤ n ∧ lru_limit_ r = n.
Proof.
  intros Hn. cbv zeta.
  assert (∀ r, NoDup (lru_ r) ∧ Size r ≤ n ∧ lru_limit_ r = n →
               ∀ c, NoDup (lru_ (run r c)) ∧ Size (run r c) ≤ n
                    ∧ lru_limit_ (run r c) = n) as Hstep.
  { intros r (Hnd & Hsize & Hlim) c. unfold Size in *.
    destruct c as [|f|f]; simpl.
    - unfold Victim. destruct (lru_ r) as [|g l] eqn:Hl; simpl; [by rewrite Hl|].
      apply NoDup_cons in Hnd as [_ Hnd]. simpl in Hsize. split_and!; [done|lia|done].
    - split_and!; [by apply NoDup_filter| |done].
      pose proof (length_filter (λ id, id ≠ f) (lru_ r)). lia.
    - unfold Unpin. case_bool_decide as Hin; [done|].
      case_bool_decide as Hfull; simpl.
      + destruct (lru_ r) as [|g l] eqn:Hl; simpl in *; [lia|].
        apply NoDup_cons in Hnd as [_ Hnd]. rewrite length_app. simpl.
        split_and!; [|lia|done].
        apply NoDup_app. split_and!; [done| |apply NoDup_singleton].
        intros x Hx ->%list_elem_of_singleton. apply Hin. by right.
      + rewrite length_app. simpl. split_and!; [|lia|done].
        apply NoDup_app. split_and!; [done| |apply NoDup_singleton].
        by intros x Hx ->%list_elem_of_singleton. }
  induction calls as [|c calls IH] using rev_ind.
  - simpl. split_and!; [apply NoDup_nil_2|unfold Size; simpl; lia|done].
  - rewrite foldl_app. simpl. by apply Hstep.
Qed.

(** X2: frames come out in the order they went in.  On an empty replacer
    with room for them, unpinning distinct frames and then calling
    [Victim] once per frame returns them in the order of their [Unpin]
    calls and leaves the replacer empty, where [Victim] returns false. *)
Theorem Victim_returns_frames_in_Unpin_order (n : nat) (l : list frame_id_t) :
  NoDup l → length l ≤ n →
  victims (length l) (unpin_all l (new n)) = (Some <$> l, new n)
  ∧ Victim (new n) = (None, new n).
Proof.
  intros Hnd Hlen. split; [|done].
  rewrite unpin_all_fresh by done. apply victims_all.
Qed.

(** X3: after [Pin(f)] the frame is not in the queue and [Victim] cannot
    return it; the other frames stay, in their order; a second [Pin]
    changes nothing. *)
Theorem Pin_removes_frame (f : frame_id_t) (r : LRUReplacer.t) :
  (f ∉ lru_ (Pin f r))
  ∧ (fst (Victim (Pin f r)) ≠ Some f)
  ∧ lru_ (Pin f r) = filter (λ g, g ≠ f) (lru_ r)
  ∧ Pin f (Pin f r) = Pin f r.
Proof.
  assert (f ∉ lru_ (Pin f r)) as Hnot.
  { simpl. intros [Hne _]%list_elem_of_filter. done. }
  split_and!; [done| |reflexivity|].
  - unfold Victim. destruct (lru_ (Pin f r)) as [|g l] eqn:Hl; simpl; [done|].
    intros [= ->]. apply Hnot. by left.
  - unfold Pin; simpl. f_equal. apply list_filter_filter_l. done.
Qed.


End replacer_facts.

Section replacer_runs.
Import LRUReplacer ReplacerRuns.

(** A replacer for two frames: unpin 0, 1, 0, then 2 (which drops 0 from
    the full queue), pin 1, and take a victim. *)
Lemma replacer_queue_bounded_witness :
  let r := foldl run (new 2)
             [Call_Unpin 0; Call_Unpin 1; Call_Unpin 0; Call_Unpin 2;
              Call_Pin 1; Call_Victim] in
  NoDup (lru_ r) ∧ Size r ≤ 2 ∧ lru_limit_ r = 2.
Proof. apply (replacer_queue_bounded 2). lia. Defined.

(** Frames 4, 2, 7 go through a replacer for five frames. *)
Lemma Victim_returns_frames_in_Unpin_order_witness :
  victims 3 (unpin_all [4; 2; 7] (new 5)) = ([Some 4; Some 2; Some 7], new 5)
  ∧ Victim (new 5) = (None, new 5).
Proof.
  apply (Victim_returns_frames_in_Unpin_order 5 [4; 2; 7]).
  - apply (bool_decide_unpack (NoDup [4; 2; 7])). vm_compute. exact I.
  - simpl. lia.
Defined.

End replacer_runs.

(** * Further properties of the buffer pool manager instance *)

Section instance_extras.
Import BufferPoolManagerInstance Reachable.
Context {Data : Type}.
Variable zero : Data.
Implicit Types (s : BufferPoolManagerInstance.t Data) (dm : DiskManager.t Data).

Lemma page_at_set_page s f p g :
  page_at zero (set_page f p s) g =
  if bool_decide (g = f ∧ f < length (pages_ s)) then p else page_at zero s g.
Proof.
  unfold page_at, set_page; simpl. case_bool_decide as Hc.
  - destruct Hc as [-> Hlt]. by rewrite list_lookup_insert_eq.
  - destruct (decide (g = f)) as [->|Hne].
    + by rewrite list_insert_ge by lia.
    + by rewrite list_lookup_insert_ne.
Qed.

Lemma flush_fold_frames (l : list (Z * nat)) : ∀ s dm g,
  let r := foldl (flush_entry zero) (s, dm) l in
  data_ (page_at zero r.1 g) = data_ (page_at zero s g)
  ∧ page_id_ (page_at zero r.1 g) = page_id_ (page_at zero s g)
  ∧ pin_count_ (page_at zero r.1 g) = pin_count_ (page_at zero s g)
  ∧ (is_dirty_ (page_at zero r.1 g) = true → is_dirty_ (page_at zero s g) = true)
  ∧ (g ∈ l.*2 → g < length (pages_ s) → is_dirty_ (page_at zero r.1 g) = false).
Proof.
  induction l as [|[p f] l IH]; intros s dm g; simpl.
  - split_and!; try done. intros Hin. by apply elem_of_nil in Hin.
  - set (q := mkPage (data_ (page_at zero s f)) (page_id_ (page_at zero s f))
                     (pin_count_ (page_at zero s f)) false).
    specialize (IH (set_page f q s)
                   (DiskManager.WritePage p (data_ (page_at zero s f)) dm) g).
    simpl in IH. destruct IH as (Hd & Hi & Hp & Hdirty & Hclean).
    rewrite Hd, Hi, Hp.
    pose proof (page_at_set_page s f q g) as Hq.
    unfold set_page in Hclean; simpl in Hclean. rewrite length_insert in Hclean.
    case_bool_decide as Hc; rewrite Hq in *; clear Hq.
    + destruct Hc as [-> Hlt]. simpl in *. split_and!; try done.
      * intros Ht. by apply Hdirty in Ht.
      * intros _ _. destruct (is_dirty_ _) eqn:Hx; [|done]. by specialize (Hdirty eq_refl).
    + split_and!; try done.
      intros [->|Hin]%elem_of_cons Hlt; [|by apply Hclean].
      exfalso. apply Hc. done.
Qed.

Lemma flush_fold_disk (l : list (Z * nat)) : ∀ s dm,
  NoDup l.*1 →
  let r := foldl (flush_entry zero) (s, dm) l in
  (∀ p f, (p, f) ∈ l →
          DiskManager.contents r.2 !! p = Some (data_ (page_at zero s f)))
  ∧ (∀ p, p ∉ l.*1 → DiskManager.contents r.2 !! p = DiskManager.contents dm !! p).
Proof.
  induction l as [|[p f] l IH]; intros s dm Hnd; simpl.
  - split; [|done]. intros p f Hin. by apply elem_of_nil in Hin.
  - simpl in Hnd. apply NoDup_cons in Hnd as [Hnot Hnd].
    specialize (IH (set_page f (mkPage (data_ (page_at zero s f))
                      (page_id_ (page_at zero s f)) (pin_count_ (page_at zero s f)) false) s)
                   (DiskManager.WritePage p (data_ (page_at zero s f)) dm) Hnd).
    simpl in IH. destruct IH as [Hin Hout]. split.
    + intros q g [[= -> ->]|Hq]%elem_of_cons.
      * rewrite Hout by done. simpl. apply lookup_insert_eq.
      * rewrite (Hin q g Hq). f_equal.
        rewrite page_at_set_page. by case_bool_decide as Hc; [destruct Hc as [-> _]|].
    + intros q Hq. rewrite Hout; [|set_solver]. simpl.
      apply lookup_insert_ne. set_solver.
Qed.

(** X5: flushing a page twice in a row is the same as flushing it once:
    the second call returns the same result and leaves the same instance
    and the same disk contents; only the log of writes grows. *)
Theorem FlushPgImp_twice page_id s dm :
  let '(r1, s1, dm1) := FlushPgImp zero page_id s dm in
  let '(r2, s2, dm2) := FlushPgImp zero page_id s1 dm1 in
  r2 = r1 ∧ s2 = s1 ∧ DiskManager.contents dm2 = DiskManager.contents dm1.
Proof.
  unfold FlushPgImp. destruct (page_table_ s !! page_id) as [f|] eqn:Hres; simpl.
  - rewrite Hres. rewrite page_at_set_page. simpl.
    assert (∀ p : Page Data, set_page f p (set_page f p s) = set_page f p s) as Hidem.
    { intros p. unfold set_page, set_pages; simpl. by rewrite list_insert_insert_eq. }
    case_bool_decide as Hc; simpl.
    + split_and!; [done|apply Hidem|apply insert_insert_eq].
    + split_and!; [done| |apply insert_insert_eq].
      unfold set_page, set_pages. simpl. by rewrite list_insert_insert_eq.
  - by rewrite Hres.
Qed.

(** X6: flushing a resident page stores the frame's bytes on disk under
    the page id (a later read of that id returns them), appends one write
    to the log, leaves every other page of the disk alone and clears the
    dirty flag; pin count, bytes, page id, the other frames, the page
    table, the free list and the replacer stay as they are. *)
Theorem FlushPgImp_resident page_id f s dm :
  page_table_ s !! page_id = Some f → f < length (pages_ s) →
  let old := page_at zero s f in
  let '(r, s', dm') := FlushPgImp zero page_id s dm in
  r = true
  ∧ (∀ buf, DiskManager.ReadPage page_id buf dm' = data_ old)
  ∧ DiskManager.log dm' = DiskManager.log dm ++ [(page_id, data_ old)]
  ∧ (∀ q, q ≠ page_id →
          DiskManager.contents dm' !! q = DiskManager.contents dm !! q)
  ∧ page_at zero s' f = mkPage (data_ old) (page_id_ old) (pin_count_ old) false
  ∧ (∀ g, g ≠ f → page_at zero s' g = page_at zero s g)
  ∧ page_table_ s' = page_table_ s
  ∧ free_list_ s' = free_list_ s
  ∧ replacer_ s' = replacer_ s.
Proof.
  intros Hres Hf old. unfold FlushPgImp. rewrite Hres. simpl.
  split_and!; try done.
  - intros buf. unfold DiskManager.ReadPage, DiskManager.WritePage; simpl.
    by rewrite lookup_insert_eq.
  - intros q Hq. by apply lookup_insert_ne.
  - rewrite page_at_set_page. by rewrite bool_decide_eq_true_2.
  - intros g Hg. rewrite page_at_set_page. by rewrite bool_decide_eq_false_2 by tauto.
Qed.

(** X7: [FlushAllPgsImp] writes the bytes of every page of the page table
    to disk under its id and leaves the rest of the disk alone; the frames
    of the page table end up clean; no frame's bytes, page id or pin count
    changes, and the page table, free list, replacer and allocator are
    untouched. *)
Theorem FlushAllPgsImp_writes_every_resident_page s dm :
  let '(s', dm') := FlushAllPgsImp zero s dm in
  (∀ p f, page_table_ s !! p = Some f →
          DiskManager.contents dm' !! p = Some (data_ (page_at zero s f))
          ∧ (f < length (pages_ s) → is_dirty_ (page_at zero s' f) = false))
  ∧ (∀ p, page_table_ s !! p = None →
          DiskManager.contents dm' !! p = DiskManager.contents dm !! p)
  ∧ (∀ g, data_ (page_at zero s' g) = data_ (page_at zero s g)
          ∧ page_id_ (page_at zero s' g) = page_id_ (page_at zero s g)
          ∧ pin_count_ (page_at zero s' g) = pin_count_ (page_at zero s g))
  ∧ page_table_ s' = page_table_ s
  ∧ free_list_ s' = free_list_ s
  ∧ replacer_ s' = replacer_ s
  ∧ next_page_id_ s' = next_page_id_ s.
Proof.
  unfold FlushAllPgsImp.
  destruct (foldl (flush_entry zero) (s, dm) (map_to_list (page_table_ s)))
    as [s' dm'] eqn:Hrun.
  pose proof (FlushAllPgsImp_fold zero (map_to_list (page_table_ s)) s dm)
    as (_ & _ & _ & Hnext & Hrepl & Hfree & Hpt & _).
  pose proof (flush_fold_disk (map_to_list (page_table_ s)) s dm
                (NoDup_fst_map_to_list _)) as [Hin Hout].
  pose proof (flush_fold_frames (map_to_list (page_table_ s)) s dm) as Hframes.
  rewrite Hrun in *. simpl in *. split_and!; try done.
  - intros p f Hres. split.
    + apply Hin. by apply elem_of_map_to_list.
    + intros Hf. apply Hframes; [|done].
      apply list_elem_of_fmap. exists (p, f). split; [done|].
      by apply elem_of_map_to_list.
  - intros p Hnone. apply Hout.
    intros [[q f] [-> Hin']]%list_elem_of_fmap.
    apply elem_of_map_to_list in Hin'. simpl in Hnone. congruence.
  - intros g. destruct (Hframes g) as (? & ? & ? & _). done.
Qed.

Lemma pick_in_range s f s1 :
  frames_in_range s → pick s = Some (f, s1) →
  f < length (pages_ s) ∧ pages_ s1 = pages_ s ∧ page_table_ s1 = page_table_ s
  ∧ next_page_id_ s1 = next_page_id_ s ∧ num_instances_ s1 = num_instances_ s
  ∧ pool_size_ s1 = pool_size_ s.
Proof.
  intros (Hlen & Hfree & Hlru & _). unfold pick.
  destruct (free_list_ s) as [|g rest].
  - destruct (LRUReplacer.lru_ (replacer_ s)) as [|g rest]; [done|].
    intros [= -> <-]. apply Forall_cons in Hlru as [Hg _]. simpl.
    split_and!; try done. lia.
  - intros [= -> <-]. apply Forall_cons in Hfree as [Hg _]. simpl.
    split_and!; try done. lia.
Qed.

(** What [install] leaves behind, for a frame inside the array. *)
Lemma install_effect f page_id d s :
  f < length (pages_ s) →
  let s' := install zero f page_id d s in
  page_at zero s' f = mkPage d page_id 1 false
  ∧ (∀ g, g ≠ f → page_at zero s' g = page_at zero s g)
  ∧ page_table_ s' !! page_id = Some f
  ∧ f ∉ LRUReplacer.lru_ (replacer_ s').
Proof.
  intros Hf s'. subst s'. unfold install. split_and!.
  - unfold page_at; simpl. by rewrite list_lookup_insert_eq.
  - intros g Hg. unfold page_at; simpl. by rewrite list_lookup_insert_ne.
  - simpl. apply lookup_insert_eq.
  - simpl. intros [Hne _]%list_elem_of_filter. done.
Qed.

(** X8: the frame array is never indexed out of bounds: on every reachable
    state the frame ids held by the free list, the replacer and the page
    table are below [pool_size_], which is the length of the frame array,
    and so is every frame that [NewPgImp] or [FetchPgImp] returns. *)
Theorem frame_ids_stay_in_range s dm :
  reachable zero s →
  frames_in_range s
  ∧ (∀ f p, (NewPgImp zero s dm).1.1 = Some (f, p) → f < pool_size_ s)
  ∧ (∀ page_id f, (FetchPgImp zero page_id s dm).1.1 = Some f → f < pool_size_ s).
Proof.
  intros Hreach.
  pose proof (reachable_frames_in_range zero s Hreach) as Hrange.
  split_and!; [done| |].
  - intros f p. rewrite NewPgImp_eq.
    destruct (all_pages_pinned zero s); [done|].
    destruct (pick s) as [[g s1]|] eqn:Hpick; [|done]. simpl. intros [= -> _].
    destruct (pick_in_range s f s1 Hrange Hpick) as [Hf _].
    destruct Hrange as [Hlen _]. lia.
  - intros page_id f. rewrite FetchPgImp_eq.
    destruct (page_table_ s !! page_id) as [g|] eqn:Hres.
    + simpl. intros [= ->]. destruct Hrange as (_ & _ & _ & Hpt). exact (Hpt _ _ Hres).
    + destruct (pick s) as [[g s1]|] eqn:Hpick; [|done]. simpl. intros [= ->].
      destruct (pick_in_range s f s1 Hrange Hpick) as [Hf _].
      destruct Hrange as [Hlen _]. lia.
Qed.

(** X9: the allocator hands out the instance's own residue class in
    increasing order: on a reachable state, and as long as the next id
    still fits the 32-bit [page_id_t], a successful [NewPgImp] returns
    [next_page_id_], which is non-negative and passes the assertion of
    [ValidatePageId], and moves the allocator on by [num_instances_]. *)
Theorem NewPgImp_allocates_own_residue s dm f p :
  reachable zero s → (next_page_id_ s + num_instances_ s < 2 ^ 31)%Z →
  (NewPgImp zero s dm).1.1 = Some (f, p) →
  p = next_page_id_ s
  ∧ (0 ≤ p)%Z
  ∧ ValidatePageId p s = true
  ∧ next_page_id_ (NewPgImp zero s dm).1.2 = (p + num_instances_ s)%Z
  ∧ (p < next_page_id_ (NewPgImp zero s dm).1.2 < 2 ^ 31)%Z.
Proof.
  intros Hreach Hfits.
  destruct (reachable_allocator_valid zero s Hreach) as (Hidx & Hnext & Hvalid).
  rewrite NewPgImp_eq. destruct (all_pages_pinned zero s); [done|].
  unfold pick. destruct (free_list_ s) as [|g rest].
  - destruct (LRUReplacer.lru_ (replacer_ s)) as [|g rest]; [done|].
    simpl. intros [= -> <-]. split_and!; [done..|lia|lia].
  - simpl. intros [= -> <-]. split_and!; [done..|lia|lia].
Qed.

(** ** The page table names the frames that hold its pages *)







(** ** Pinned frames are never replaced *)









(** ** What a replacement leaves behind *)

Lemma pick_install f page_id d s s1 :
  frames_in_range s → pick s = Some (f, s1) →
  let s' := install zero f page_id d s1 in
  page_at zero s' f = mkPage d page_id 1 false
  ∧ (∀ g, g ≠ f → page_at zero s' g = page_at zero s g)
  ∧ page_table_ s' !! page_id = Some f
  ∧ (f ∉ LRUReplacer.lru_ (replacer_ s'))
  ∧ (free_list_ s = f :: free_list_ s'
     ∨ (free_list_ s = [] ∧ free_list_ s' = []
        ∧ ∃ rest, LRUReplacer.lru_ (replacer_ s) = f :: rest
                  ∧ LRUReplacer.lru_ (replacer_ s') = filter (λ g, g ≠ f) rest))
  ∧ (∀ q, q ≠ page_id → q ≠ INVALID_PAGE_ID →
          page_table_ s' !! q
          = if bool_decide (q = page_id_ (page_at zero s f)) then None
            else page_table_ s !! q).
Proof.
  intros Hrange Hpick s'.
  destruct (pick_in_range s f s1 Hrange Hpick) as (Hf & Hp & Ht & _).
  assert (∀ g, page_at zero s1 g = page_at zero s g) as Hsame.
  { intros g. unfold page_at. by rewrite Hp. }
  destruct (install_effect f page_id d s1) as (Hnew & Hother & Hres & Hnot);
    [by rewrite Hp|].
  split_and!; try done.
  - intros g Hg. subst s'. rewrite Hother by done. apply Hsame.
  - subst s'. unfold pick in Hpick. destruct (free_list_ s) as [|g rest] eqn:Hfree.
    + destruct (LRUReplacer.lru_ (replacer_ s)) as [|g rest] eqn:Hlru; [done|].
      simplify_eq. right. simpl. rewrite Hfree. split_and!; try done.
      exists rest. split; [done|]. unfold LRUReplacer.Pin. simpl. done.
    + simplify_eq. left. done.
  - intros q Hq Hvalid. subst s'. unfold install; simpl.
    rewrite lookup_insert_ne by done. rewrite Hsame, Ht.
    case_bool_decide as Hold.
    + case_bool_decide as Hq'.
      * subst q. apply lookup_delete_eq.
      * by rewrite lookup_delete_ne.
    + rewrite bool_decide_eq_false_2; [done|]. intros ->. done.
Qed.

(** X13: a successful [NewPgImp] takes the front of the free list, or,
    when the free list is empty, the front of the replacer's queue; it
    leaves the disk alone, zeroes the frame, stamps it with the allocated
    id, pins it once, maps the id to the frame, drops the frame from the
    replacer and drops the page-table entry of the page that was in the
    frame; every other frame and every other entry stay. *)
Theorem NewPgImp_replaces_free_frame_first s dm f p s' dm' :
  frames_in_range s → NewPgImp zero s dm = (Some (f, p), s', dm') →
  dm' = dm
  ∧ page_at zero s' f = mkPage zero p 1 false
  ∧ (∀ g, g ≠ f → page_at zero s' g = page_at zero s g)
  ∧ page_table_ s' !! p = Some f
  ∧ (f ∉ LRUReplacer.lru_ (replacer_ s'))
  ∧ (free_list_ s = f :: free_list_ s'
     ∨ (free_list_ s = [] ∧ free_list_ s' = []
        ∧ ∃ rest, LRUReplacer.lru_ (replacer_ s) = f :: rest
                  ∧ LRUReplacer.lru_ (replacer_ s') = filter (λ g, g ≠ f) rest))
  ∧ (∀ q, q ≠ p → q ≠ INVALID_PAGE_ID →
          page_table_ s' !! q
          = if bool_decide (q = page_id_ (page_at zero s f)) then None
            else page_table_ s !! q).
Proof.
  intros Hrange. rewrite NewPgImp_eq. destruct (all_pages_pinned zero s); [done|].
  destruct (pick s) as [[f' s1]|] eqn:Hpick; [|done]. intros [= -> <- <- <-].
  split; [done|].
  assert (pick (set_next_page_id (next_page_id_ s + num_instances_ s) s)
          = Some (f, set_next_page_id (next_page_id_ s + num_instances_ s) s1)) as Hpick'.
  { unfold pick in *. simpl.
    destruct (free_list_ s); [destruct (LRUReplacer.lru_ (replacer_ s))|];
      by simplify_eq. }
  exact (pick_install f (next_page_id_ s) zero
           (set_next_page_id (next_page_id_ s + num_instances_ s) s) _ Hrange Hpick').
Qed.

(** X14: a [FetchPgImp] of a page that is not resident takes a frame the
    same way, fills it with what the disk holds under the page id (zeroes
    if nothing was written), pins it once and maps the id to it; the disk
    is not written. *)
Theorem FetchPgImp_miss_reads_from_disk page_id s dm f s' dm' :
  frames_in_range s → page_table_ s !! page_id = None →
  FetchPgImp zero page_id s dm = (Some f, s', dm') →
  dm' = dm
  ∧ page_at zero s' f = mkPage (DiskManager.ReadPage page_id zero dm) page_id 1 false
  ∧ (∀ g, g ≠ f → page_at zero s' g = page_at zero s g)
  ∧ page_table_ s' !! page_id = Some f
  ∧ (f ∉ LRUReplacer.lru_ (replacer_ s'))
  ∧ (free_list_ s = f :: free_list_ s'
     ∨ (free_list_ s = [] ∧ free_list_ s' = []
        ∧ ∃ rest, LRUReplacer.lru_ (replacer_ s) = f :: rest
                  ∧ LRUReplacer.lru_ (replacer_ s') = filter (λ g, g ≠ f) rest)).
Proof.
  intros Hrange Hmiss. rewrite FetchPgImp_eq, Hmiss.
  destruct (pick s) as [[f' s1]|] eqn:Hpick; [|done]. intros [= -> <- <-].
  split; [done|].
  destruct (pick_install f page_id (DiskManager.ReadPage page_id zero dm) s s1
              Hrange Hpick) as (? & ? & ? & ? & ? & _).
  done.
Qed.

(** X15: bytes survive a trip over the disk.  After a resident, unpinned
    page is flushed and deleted, its frame is blank, at the back of the
    free list and out of the page table, and the next [FetchPgImp] of the
    same id succeeds and brings the flushed bytes back, pinned once. *)
Theorem FetchPgImp_after_FlushPgImp_and_DeletePgImp page_id f s dm :
  frames_in_range s → page_table_ s !! page_id = Some f →
  pin_count_ (page_at zero s f) = 0%Z →
  let '(_, s1, dm1) := FlushPgImp zero page_id s dm in
  let '(r, s2) := DeletePgImp zero page_id s1 in
  r = true
  ∧ page_table_ s2 !! page_id = None
  ∧ page_at zero s2 f = blank zero
  ∧ free_list_ s2 = free_list_ s ++ [f]
  ∧ ∃ g s3, FetchPgImp zero page_id s2 dm1 = (Some g, s3, dm1)
            ∧ page_at zero s3 g = mkPage (data_ (page_at zero s f)) page_id 1 false
            ∧ page_table_ s3 !! page_id = Some g.
Proof.
  intros Hrange Hres Hpin.
  pose proof Hrange as (Hlen & Hfree & Hlru & Hpt).
  assert (f < length (pages_ s)) as Hf.
  { rewrite Hlen. exact (Hpt _ _ Hres). }
  unfold FlushPgImp. rewrite Hres.
  set (q := mkPage (data_ (page_at zero s f)) (page_id_ (page_at zero s f))
                   (pin_count_ (page_at zero s f)) false).
  unfold DeletePgImp. cbn [page_table_ set_page set_pages]. rewrite Hres.
  rewrite set_page_page_at by done. cbn [pin_count_ q].
  rewrite bool_decide_eq_false_2 by (intros Hne; by apply Hne).
  set (s2 := set_free_list _ _).
  assert (page_table_ s2 = delete page_id (page_table_ s)) as Ht2 by done.
  assert (free_list_ s2 = free_list_ s ++ [f]) as Hf2 by done.
  assert (length (pages_ s2) = length (pages_ s)) as Hlen2.
  { subst s2. simpl. by rewrite !length_insert. }
  assert (page_at zero s2 f = blank zero) as Hblank.
  { subst s2. unfold page_at; simpl. rewrite list_lookup_insert_eq; [done|].
    by rewrite length_insert. }
  split_and!; [done| |done|done|].
  - rewrite Ht2. apply lookup_delete_eq.
  - assert (frames_in_range s2) as Hrange2.
    { unfold frames_in_range. rewrite Hlen2, Hf2, Ht2.
      change (pool_size_ s2) with (pool_size_ s).
      change (replacer_ s2) with (replacer_ s).
      split_and!; [done| |done|].
      - apply Forall_app. split; [done|]. apply Forall_singleton. lia.
      - by apply map_Forall_delete. }
    rewrite FetchPgImp_eq, Ht2, lookup_delete_eq.
    destruct (pick s2) as [[g s3]|] eqn:Hpick.
    + eexists _, _. split; [done|].
      destruct (pick_install g page_id
                  (DiskManager.ReadPage page_id zero
                     (DiskManager.WritePage page_id (data_ (page_at zero s f)) dm))
                  s2 s3 Hrange2 Hpick) as (Hnew & _ & Hres' & _).
      split; [|done]. rewrite Hnew.
      unfold DiskManager.ReadPage, DiskManager.WritePage; simpl.
      by rewrite lookup_insert_eq.
    + exfalso. unfold pick in Hpick. rewrite Hf2 in Hpick.
      destruct (free_list_ s); done.
Qed.

End instance_extras.

(** * Runs of the buffer pool manager instance, continued *)

Section instance_extra_runs.
Import BufferPoolManagerInstance Reachable Accounting Scenario.

(** Page 0 sits unpinned in frame 0; flushing it puts its zeroes on disk. *)
Lemma FlushPgImp_resident_witness :
  let '(r, s', dm') := FlushPgImp zero_page 0 unpinned_page_0 DiskManager.empty in
  r = true ∧ DiskManager.ReadPage 0 [] dm' = zero_page
  ∧ page_table_ s' = page_table_ unpinned_page_0.
Proof.
  pose proof (FlushPgImp_resident zero_page 0 0 unpinned_page_0 DiskManager.empty) as H.
  destruct (FlushPgImp zero_page 0 unpinned_page_0 DiskManager.empty) as [[r s'] dm'].
  destruct H as (Hr & Hread & _ & _ & _ & _ & Ht & _);
    [vm_compute; reflexivity | vm_compute; lia |].
  split_and!; [exact Hr | | exact Ht].
  rewrite Hread. vm_compute; reflexivity.
Defined.

(** Two frames, one [NewPage]: the next [NewPage] returns frame 1. *)
Lemma frame_ids_stay_in_range_witness :
  let s := run zero_page (Call_NewPage DiskManager.empty) (new zero_page 2 1 0) in
  (NewPgImp zero_page s DiskManager.empty).1.1 = Some (1, 1%Z) ∧ 1 < pool_size_ s.
Proof.
  intros s.
  destruct (frame_ids_stay_in_range zero_page s DiskManager.empty) as (_ & Hnew & _).
  - apply reachable_run; [done|]. apply reachable_new. lia.
  - split; [vm_compute; reflexivity|]. apply (Hnew 1 1%Z). vm_compute; reflexivity.
Defined.

(** Instance 1 of 3 after one [NewPage] (page 1): the next page is 4 and
    the allocator moves to 7. *)
Lemma NewPgImp_allocates_own_residue_witness :
  let s := run zero_page (Call_NewPage DiskManager.empty) (new zero_page 2 3 1) in
  next_page_id_ s = 4%Z
  ∧ next_page_id_ (NewPgImp zero_page s DiskManager.empty).1.2 = (4 + 3)%Z.
Proof.
  intros s.
  destruct (NewPgImp_allocates_own_residue zero_page s DiskManager.empty 1 4%Z)
    as (_ & _ & _ & Hnext & _).
  - apply reachable_run; [done|]. apply reachable_new. lia.
  - vm_compute; reflexivity.
  - vm_compute; reflexivity.
  - split; [vm_compute; reflexivity | exact Hnext].
Defined.

(** Two frames after [NewPage] and [UnpinPage(0, true)]: one frame free,
    one queued, none pinned. *)
Lemma accounting_without_DeletePage_witness :
  let s := run zero_page (Call_UnpinPage 0 true)
             (run zero_page (Call_NewPage DiskManager.empty) (new zero_page 2 1 0)) in
  exactly_one_state zero_page s ∧ frame_count zero_page s = pool_size_ s.
Proof.
  intros s. apply (accounting_without_DeletePage zero_page s).
  apply reachable_run; [reflexivity|].
  apply reachable_run; [reflexivity|].
  apply reachable_new. lia.
Defined.



(** A fresh pool of two frames: [NewPage] takes frame 0, the front of the
    free list, for page 0. *)
Lemma NewPgImp_replaces_free_frame_first_witness :
  let s := new zero_page 2 1 0 in
  let s' := (NewPgImp zero_page s DiskManager.empty).1.2 in
  page_at zero_page s' 0 = mkPage zero_page 0 1 false
  ∧ page_table_ s' !! 0%Z = Some 0.
Proof.
  intros s s'.
  destruct (NewPgImp_replaces_free_frame_first zero_page s DiskManager.empty
              0 0%Z s' DiskManager.empty) as (_ & Hpage & _ & Hres & _).
  - apply (reachable_frames_in_range zero_page). apply reachable_new. lia.
  - vm_compute; reflexivity.
  - split; [exact Hpage | exact Hres].
Defined.

(** A fresh pool and a disk that holds [1; 2; 3] under page 5: fetching
    page 5 brings these bytes into frame 0. *)
Lemma FetchPgImp_miss_reads_from_disk_witness :
  let s := new zero_page 2 1 0 in
  let dm := DiskManager.WritePage 5 [1; 2; 3]%Z DiskManager.empty in
  let s' := (FetchPgImp zero_page 5 s dm).1.2 in
  page_at zero_page s' 0 = mkPage [1; 2; 3]%Z 5 1 false.
Proof.
  intros s dm s'.
  destruct (FetchPgImp_miss_reads_from_disk zero_page 5 s dm 0 s' dm)
    as (_ & Hpage & _).
  - apply (reachable_frames_in_range zero_page). apply reachable_new. lia.
  - vm_compute; reflexivity.
  - vm_compute; reflexivity.
  - rewrite Hpage. vm_compute; reflexivity.
Defined.

(** One frame: page 0 is created, overwritten with [7], unpinned, flushed
    and deleted; fetching it again brings [7] back. *)
Lemma FetchPgImp_after_FlushPgImp_and_DeletePgImp_witness :
  let s := run zero_page (Call_UnpinPage 0 true)
             (run zero_page (Call_write 0 [7%Z])
                (run zero_page (Call_NewPage DiskManager.empty) (new zero_page 1 1 0))) in
  let '(_, s1, dm1) := FlushPgImp zero_page 0 s DiskManager.empty in
  let '(r, s2) := DeletePgImp zero_page 0 s1 in
  r = true
  ∧ ∃ g s3, FetchPgImp zero_page 0 s2 dm1 = (Some g, s3, dm1)
            ∧ data_ (page_at zero_page s3 g) = [7%Z].
Proof.
  intros s.
  pose proof (FetchPgImp_after_FlushPgImp_and_DeletePgImp zero_page 0 0 s
                DiskManager.empty) as H.
  destruct (FlushPgImp zero_page 0 s DiskManager.empty) as [[r1 s1] dm1].
  destruct (DeletePgImp zero_page 0 s1) as [r s2].
  destruct H as (Hr & _ & _ & _ & g & s3 & Hfetch & Hpage & _).
  - apply (reachable_frames_in_range zero_page).
    apply reachable_run; [exact I|].
    apply reachable_run; [exact I|].
    apply reachable_run; [exact I|].
    apply reachable_new. lia.
  - vm_compute; reflexivity.
  - vm_compute; reflexivity.
  - split; [exact Hr|]. exists g, s3. split; [exact Hfetch|].
    rewrite Hpage. vm_compute; reflexivity.
Defined.

End instance_extra_runs.

(** * Sharding in the parallel buffer pool manager *)

Section sharding_facts.
Import ParallelBufferPoolManager Sharding.
Context {Data : Type}.
Variable zero : Data.
Implicit Types (s : ParallelBufferPoolManager.t Data) (dm : DiskManager.t Data).
Implicit Types (b : BufferPoolManagerInstance.t Data).

Lemma run_static (c : Reachable.call) b :
  BufferPoolManagerInstance.num_instances_ (Reachable.run zero c b)
  = BufferPoolManagerInstance.num_instances_ b
  ∧ BufferPoolManagerInstance.instance_index_ (Reachable.run zero c b)
    = BufferPoolManagerInstance.instance_index_ b.
Proof.
  destruct c as [dm|p dm|p d|p dm|dm|p|f d]; simpl.
  - rewrite NewPgImp_eq. destruct (BufferPoolManagerInstance.all_pages_pinned zero b); [done|].
    unfold Reachable.pick.
    destruct (BufferPoolManagerInstance.free_list_ b);
      [destruct (LRUReplacer.lru_ (BufferPoolManagerInstance.replacer_ b))|]; done.
  - rewrite FetchPgImp_eq. destruct (BufferPoolManagerInstance.page_table_ b !! p); [done|].
    unfold Reachable.pick.
    destruct (BufferPoolManagerInstance.free_list_ b);
      [destruct (LRUReplacer.lru_ (BufferPoolManagerInstance.replacer_ b))|]; done.
  - unfold BufferPoolManagerInstance.UnpinPgImp. repeat case_match; done.
  - unfold BufferPoolManagerInstance.FlushPgImp. repeat case_match; done.
  - unfold BufferPoolManagerInstance.FlushAllPgsImp.
    by pose proof (FlushAllPgsImp_fold zero
                     (map_to_list (BufferPoolManagerInstance.page_table_ b)) b dm)
      as (_ & ? & ? & _).
  - unfold BufferPoolManagerInstance.DeletePgImp. repeat case_match; done.
  - done.
Qed.

Lemma sharded_update s i (c : Reachable.call) b l :
  sharded zero s → bpms_ s !! i = Some b →
  sharded zero (mk (<[i := Reachable.run zero c b]> (bpms_ s)) l).
Proof.
  intros [Hn Hall] Hb. unfold sharded. simpl. rewrite length_insert.
  split; [done|]. intros j b' Hj.
  destruct (decide (j = i)) as [->|Hne].
  - rewrite list_lookup_insert_eq in Hj by (by eapply lookup_lt_Some).
    simplify_eq. destruct (Hall i b Hb) as (Hr & Hnum & Hidx).
    destruct (run_static c b) as [-> ->].
    split_and!; [|done|done]. by apply Reachable.reachable_run.
  - rewrite list_lookup_insert_ne in Hj by done. by apply Hall.
Qed.

Lemma sharded_cursor s l : sharded zero s → sharded zero (mk (bpms_ s) l).
Proof. done. Qed.

Lemma NewPgImp_loop_sharded fuel : ∀ j s dm r,
  sharded zero s → NewPgImp_loop zero fuel j s dm = Some r → sharded zero r.1.2.
Proof.
  induction fuel as [|fuel IH]; intros j s dm r Hs; simpl; [done|].
  destruct (bpms_ s !! (j `mod` length (bpms_ s))) as [b|] eqn:Hb; [|done].
  pose proof (λ l, sharded_update s (j `mod` length (bpms_ s))
                     (Reachable.Call_NewPage dm) b l Hs Hb) as Hupd.
  simpl in Hupd.
  destruct (BufferPoolManagerInstance.NewPgImp zero b dm) as [[[[f p]|] b'] dm'] eqn:Hnew.
  - intros [= <-]. simpl. apply Hupd.
  - case_bool_decide.
    + intros [= <-]. simpl. apply (sharded_cursor (mk _ (last_index s))). apply Hupd.
    + apply IH. apply Hupd.
Qed.



Lemma sharded_new num_instances pool_size :
  0 < num_instances → sharded zero (new zero num_instances pool_size).
Proof.
  intros Hn. unfold sharded, new; simpl. rewrite length_map, length_seq.
  split; [done|]. intros i b Hb.
  rewrite list_lookup_fmap in Hb.
  destruct (seq 0 num_instances !! i) as [j|] eqn:Hj; [|done].
  apply lookup_seq in Hj as [-> Hlt]. simpl in Hb. simplify_eq.
  split_and!; [|done|done]. apply Reachable.reachable_new. lia.
Qed.

Lemma same_instances s : mk (bpms_ s) (last_index s) = s.
Proof. by destruct s. Qed.

(** The instance that answers the loop of [NewPgImp]. *)
Lemma NewPgImp_loop_success fuel : ∀ j s dm i f p s' dm',
  NewPgImp_loop zero fuel j s dm = Some (Some (i, f), p, s', dm') →
  ∃ b b', bpms_ s !! i = Some b
          ∧ BufferPoolManagerInstance.NewPgImp zero b dm = (Some (f, p), b', dm')
          ∧ bpms_ s' = <[i := b']> (bpms_ s).
Proof.
  induction fuel as [|fuel IH]; intros j s dm i f p s' dm'; simpl; [done|].
  destruct (bpms_ s !! (j `mod` length (bpms_ s))) as [b|] eqn:Hb; [|done].
  destruct (BufferPoolManagerInstance.NewPgImp zero b dm) as [[[[f' p']|] b'] dm''] eqn:Hnew.
  - intros [= <- <- <- <- <-]. by exists b, b'.
  - pose proof (NewPgImp_None zero b dm) as Hnone. rewrite Hnew in Hnone.
    specialize (Hnone eq_refl). simplify_eq.
    rewrite (list_insert_id _ _ _ Hb), same_instances.
    case_bool_decide; [done|]. apply IH.
Qed.

(** X17: a page made by the parallel pool is found again.  The id that
    [NewPgImp] returns from instance [i] is non-negative and congruent to
    [i] modulo the number of instances, so [GetBufferPoolManager] routes
    it back to instance [i], and an immediate [FetchPgImp] of it is a hit
    on the same frame that changes nothing. *)
Theorem NewPgImp_page_routes_to_its_instance s dm fuel i f p s' dm' :
  sharded zero s → NewPgImp zero fuel s dm = Some (Some (i, f), p, s', dm') →
  (p < 2 ^ 31)%Z →
  (0 ≤ p)%Z
  ∧ (p `mod` Z.of_nat (length (bpms_ s)))%Z = Z.of_nat i
  ∧ GetBufferPoolManager p s' = i
  ∧ dm' = dm
  ∧ FetchPgImp zero p s' dm' = (Some (i, f), s', dm').
Proof.
  intros [Hn Hall] Hnew Hp.
  destruct (NewPgImp_loop_success _ _ _ _ _ _ _ _ _ Hnew) as (b & b' & Hb & Hrun & Hs').
  destruct (Hall i b Hb) as (Hreach & Hnum & Hidx).
  pose proof (reachable_allocator_valid zero b Hreach) as (_ & Hnext & Hvalid).
  pose proof (reachable_frames_in_range zero b Hreach) as Hrange.
  unfold BufferPoolManagerInstance.ValidatePageId in Hvalid.
  apply bool_decide_eq_true in Hvalid. rewrite Hnum, Hidx in Hvalid.
  pose proof (NewPgImp_disk zero b dm) as Hdisk. rewrite Hrun in Hdisk. simpl in Hdisk.
  subst dm'.
  assert (p = BufferPoolManagerInstance.next_page_id_ b
          ∧ BufferPoolManagerInstance.page_table_ b' !! p = Some f) as [-> Hres].
  { rewrite NewPgImp_eq in Hrun.
    destruct (BufferPoolManagerInstance.all_pages_pinned zero b); [done|].
    destruct (Reachable.pick b) as [[f' b1]|] eqn:Hpick; [|done].
    simplify_eq. split; [done|].
    destruct (pick_in_range b f b1 Hrange Hpick) as (Hf & Hpages & _).
    apply install_effect. simpl. by rewrite Hpages. }
  assert (i < length (bpms_ s)) as Hi by (by eapply lookup_lt_Some).
  assert (length (bpms_ s') = length (bpms_ s)) as Hlen.
  { rewrite Hs'. apply length_insert. }
  assert (GetBufferPoolManager (BufferPoolManagerInstance.next_page_id_ b) s' = i) as Hroute.
  { destruct (GetBufferPoolManager_mod s' (BufferPoolManagerInstance.next_page_id_ b))
      as [-> _]; [lia|lia|].
    rewrite Hlen, Hvalid. apply Nat2Z.id. }
  split_and!; [done|done|done|done|].
  unfold FetchPgImp, at_instance. rewrite Hroute.
  assert (bpms_ s' !! i = Some b') as Hb'.
  { rewrite Hs'. by apply list_lookup_insert_eq. }
  rewrite Hb', FetchPgImp_eq, Hres. simpl.
  by rewrite (list_insert_id _ _ _ Hb'), same_instances.
Qed.

End sharding_facts.

(** * Runs of the parallel pool, continued *)

Section sharding_runs.
Import ParallelBufferPoolManager Sharding Scenario.


(** Two instances of one frame each, after one [NewPage] (page 0, by
    instance 0): the next [NewPage] is answered by instance 1 with page 1,
    and page 1 is fetched from instance 1. *)
Lemma NewPgImp_page_routes_to_its_instance_witness :
  let s := (NewPage_spec zero_page (new zero_page 2 1) DiskManager.empty).1.2 in
  let s' := (NewPage_spec zero_page s DiskManager.empty).1.2 in
  GetBufferPoolManager 1 s' = 1
  ∧ FetchPgImp zero_page 1 s' DiskManager.empty = (Some (1, 0), s', DiskManager.empty).
Proof.
  intros s s'.
  destruct (NewPgImp_page_routes_to_its_instance zero_page s DiskManager.empty 2
              1 0 1%Z s' DiskManager.empty) as (_ & _ & Hroute & _ & Hfetch).
  - assert (NewPgImp zero_page 2 (new zero_page 2 1) DiskManager.empty
            = Some (NewPage_spec zero_page (new zero_page 2 1) DiskManager.empty)) as Hs
      by (vm_compute; reflexivity).
    apply (NewPgImp_loop_sharded zero_page 2 0 (new zero_page 2 1) DiskManager.empty
             _ (sharded_new zero_page 2 1 ltac:(lia)) Hs).
  - vm_compute; reflexivity.
  - lia.
  - split; [exact Hroute | exact Hfetch].
Defined.

End sharding_runs.

(** * The hash table on resident pages *)

Section table_facts.
Import BufferPoolManagerInstance ExtendibleHashTable Residency.
Context {K V : Type} `{EqDecision V}.
Variable cmp : K → K → Z.
Variable hash_fn : K → Z.
Variable BUCKET_ARRAY_SIZE : nat.
Variable keep_occupied : bool.
Implicit Types (e : env (K:=K) (V:=V)) (ht : ExtendibleHashTable.t).

Lemma FetchPage_hit e page_id ptr :
  page_table_ (bpm e) !! page_id = Some ptr →
  FetchPage page_id e
  = Ok (Some ptr) (mkEnv (bpm e) (disk e) (trace e ++ [EvFetchPage page_id true])).
Proof.
  intros Hres. unfold FetchPage. by rewrite FetchPgImp_eq, Hres.
Qed.

Lemma UnpinPgImp_pages page_id is_dirty (s : BufferPoolManagerInstance.t (PageData (K:=K) (V:=V))) :
  page_table_ (UnpinPgImp Zeroed page_id is_dirty s).2 = page_table_ s
  ∧ length (pages_ (UnpinPgImp Zeroed page_id is_dirty s).2) = length (pages_ s)
  ∧ ∀ g, data_ (page_at Zeroed (UnpinPgImp Zeroed page_id is_dirty s).2 g)
         = data_ (page_at Zeroed s g).
Proof.
  unfold UnpinPgImp. destruct (page_table_ s !! page_id) as [f|]; [|done].
  case_bool_decide; [done|]. cbn [pin_count_].
  assert (∀ g, data_ (page_at Zeroed
            (set_page f (mkPage (data_ (page_at Zeroed s f))
               (page_id_ (page_at Zeroed s f))
               (pin_count_ (page_at Zeroed s f) - 1) is_dirty) s) g)
          = data_ (page_at Zeroed s g)) as Hdata.
  { intros g. rewrite page_at_set_page. case_bool_decide as Hc; [|done].
    by destruct Hc as [-> _]. }
  case_bool_decide; cbn [snd]; split_and!; try done; simpl; by rewrite length_insert.
Qed.

Lemma UnpinPage_pages e page_id is_dirty :
  ∃ r e', UnpinPage page_id is_dirty e = Ok r e'
          ∧ trace e' = trace e ++ [EvUnpinPage page_id is_dirty r]
          ∧ same_pages_but None e e'.
Proof.
  unfold UnpinPage.
  pose proof (UnpinPgImp_pages page_id is_dirty (bpm e)) as (Ht & Hl & Hd).
  destruct (UnpinPgImp Zeroed page_id is_dirty (bpm e)) as [r b'].
  eexists _, _. split; [done|]. split; [done|].
  split_and!; done.
Qed.

Lemma bind_Ok {A B : Type} (m : M (K:=K) (V:=V) A) (f : A → M B) e a e1 :
  m e = Ok a e1 → bind m f e = f a e1.
Proof. unfold bind. by intros ->. Qed.

Lemma FetchDirectoryPage_hit ht e ptr :
  page_table_ (bpm e) !! directory_page_id_ ht = Some ptr →
  FetchDirectoryPage ht e
  = Ok ptr (mkEnv (bpm e) (disk e)
              (trace e ++ [EvFetchPage (directory_page_id_ ht) true])).
Proof.
  intros Hres. unfold FetchDirectoryPage.
  by rewrite (bind_Ok _ _ _ _ _ (FetchPage_hit e _ _ Hres)).
Qed.

Lemma FetchBucketPage_hit e page_id ptr :
  page_table_ (bpm e) !! page_id = Some ptr →
  FetchBucketPage page_id e
  = Ok ptr (mkEnv (bpm e) (disk e) (trace e ++ [EvFetchPage page_id true])).
Proof.
  intros Hres. unfold FetchBucketPage.
  by rewrite (bind_Ok _ _ _ _ _ (FetchPage_hit e _ _ Hres)).
Qed.

Lemma dir_get_Ok {A : Type} e ptr (f : HashTableDirectoryPage.t → option A) d a :
  as_directory (data_ (page_at Zeroed (bpm e) ptr)) = Some d → f d = Some a →
  dir_get ptr f e = Ok a e.
Proof. intros Hd Hf. unfold dir_get. by rewrite Hd, Hf. Qed.

Lemma bucket_get_Ok {A : Type} e ptr (f : HashTableBucketPage.t K V → option A) b a :
  as_bucket BUCKET_ARRAY_SIZE (data_ (page_at Zeroed (bpm e) ptr)) = Some b →
  f b = Some a →
  bucket_get BUCKET_ARRAY_SIZE ptr f e = Ok a e.
Proof. intros Hb Hf. unfold bucket_get. by rewrite Hb, Hf. Qed.

Lemma KeyToDirectoryIndex_run e key ptr d :
  as_directory (data_ (page_at Zeroed (bpm e) ptr)) = Some d →
  KeyToDirectoryIndex hash_fn key ptr e
  = Ok (Z.land (Hash hash_fn key) (HashTableDirectoryPage.GetGlobalDepthMask d)) e.
Proof.
  intros Hd. unfold KeyToDirectoryIndex.
  by rewrite (bind_Ok _ _ _ _ _
    (dir_get_Ok e ptr (λ d, Some (HashTableDirectoryPage.GetGlobalDepthMask d)) d _ Hd eq_refl)).
Qed.

Lemma KeyToPageId_run e key ptr d page_id :
  as_directory (data_ (page_at Zeroed (bpm e) ptr)) = Some d →
  HashTableDirectoryPage.GetBucketPageId
    (Z.land (Hash hash_fn key) (HashTableDirectoryPage.GetGlobalDepthMask d)) d
  = Some page_id →
  KeyToPageId hash_fn key ptr e = Ok page_id e.
Proof.
  intros Hd Hp. unfold KeyToPageId.
  rewrite (bind_Ok _ _ _ _ _ (KeyToDirectoryIndex_run e key ptr d Hd)).
  by apply (dir_get_Ok e ptr _ d).
Qed.

Lemma same_pages_but_trans ptr e1 e2 e3 :
  same_pages_but ptr e1 e2 → same_pages_but None e2 e3 → same_pages_but ptr e1 e3.
Proof.
  intros (Ht & Hd & Hl & Hp) (Ht' & Hd' & Hl' & Hp').
  split_and!; [congruence..|]. intros g Hg. rewrite Hp' by done. by apply Hp.
Qed.

Lemma GetValue_run ht key e fd d pb fb b :
  directory_at e (directory_page_id_ ht) fd d →
  HashTableDirectoryPage.GetBucketPageId
    (Z.land (Hash hash_fn key) (HashTableDirectoryPage.GetGlobalDepthMask d)) d = Some pb →
  bucket_at BUCKET_ARRAY_SIZE e pb fb b →
  ∃ r1 r2 e',
    GetValue cmp hash_fn BUCKET_ARRAY_SIZE ht key e
    = Ok (HashTableBucketPage.GetValue cmp key b) e'
    ∧ trace e' = trace e ++ [EvFetchPage (directory_page_id_ ht) true;
                             EvFetchPage pb true;
                             EvUnpinPage (directory_page_id_ ht) false r1;
                             EvUnpinPage pb false r2]
    ∧ same_pages_but None e e'.
Proof.
  intros [Hd Hdir] Hpb [Hb Hbucket].
  unfold GetValue.
  rewrite (bind_Ok _ _ _ _ _ (FetchDirectoryPage_hit ht e fd Hd)).
  set (e1 := mkEnv _ _ _).
  rewrite (bind_Ok _ _ _ _ _ (KeyToPageId_run e1 key fd d pb Hdir Hpb)).
  rewrite (bind_Ok _ _ _ _ _ (FetchBucketPage_hit e1 pb fb Hb)).
  set (e2 := mkEnv _ _ _).
  rewrite (bind_Ok _ _ _ _ _
    (bucket_get_Ok e2 fb (λ b, Some (HashTableBucketPage.GetValue cmp key b)) b _
       Hbucket eq_refl)).
  destruct (UnpinPage_pages e2 (directory_page_id_ ht) false)
    as (r1 & e3 & Hrun1 & Htr1 & Hsame1).
  rewrite (bind_Ok _ _ _ _ _ Hrun1).
  destruct (UnpinPage_pages e3 pb false) as (r2 & e4 & Hrun2 & Htr2 & Hsame2).
  rewrite (bind_Ok _ _ _ _ _ Hrun2).
  exists r1, r2, e4. split; [done|]. split.
  - rewrite Htr2, Htr1. simpl. by rewrite <- !app_assoc.
  - eapply same_pages_but_trans; [|done]. exact Hsame1.
Qed.

Lemma bucket_set_pages e ptr b :
  ptr < length (pages_ (bpm e)) →
  ∃ e', bucket_set ptr b e = Ok () e'
        ∧ trace e' = trace e
        ∧ same_pages_but (Some ptr) e e'
        ∧ data_ (page_at Zeroed (bpm e') ptr) = Bucket b.
Proof.
  intros Hptr. unfold bucket_set. eexists. split; [done|]. split; [done|].
  unfold write_data. cbn [bpm disk trace]. split; [split; [|split; [|split]]|].
  - done.
  - done.
  - unfold set_page, set_pages. cbn [bpm pages_]. apply length_insert.
  - intros g Hg. cbn [bpm]. rewrite page_at_set_page.
    case_bool_decide as Hc; [|done]. destruct Hc as [-> _]. done.
  - rewrite page_at_set_page. by rewrite bool_decide_eq_true_2.
Qed.

(** The directory and a bucket in another frame survive a change of the
    bucket's frame. *)
Lemma directory_at_same ptr e e' page_id fd d :
  same_pages_but ptr e e' → Some fd ≠ ptr →
  directory_at e page_id fd d → directory_at e' page_id fd d.
Proof.
  intros (Ht & _ & _ & Hp) Hne [Hres Hd]. unfold directory_at.
  by rewrite Ht, Hp.
Qed.

Lemma Insert_run fuel ht key value e fd d pb fb b :
  directory_at e (directory_page_id_ ht) fd d →
  HashTableDirectoryPage.GetBucketPageId
    (Z.land (Hash hash_fn key) (HashTableDirectoryPage.GetGlobalDepthMask d)) d = Some pb →
  bucket_at BUCKET_ARRAY_SIZE e pb fb b →
  HashTableBucketPage.IsFull b = false →
  fb < length (pages_ (bpm e)) →
  let r := HashTableBucketPage.Insert cmp key value b in
  ∃ e', Insert cmp hash_fn BUCKET_ARRAY_SIZE keep_occupied (S fuel) ht key value e
        = Ok r.1 e'
        ∧ same_pages_but (Some fb) e e'
        ∧ data_ (page_at Zeroed (bpm e') fb) = Bucket r.2.
Proof.
  intros [Hd Hdir] Hpb [Hb Hbucket] Hfull Hfb r.
  cbn [Insert].
  rewrite (bind_Ok _ _ _ _ _ (FetchDirectoryPage_hit ht e fd Hd)).
  set (e1 := mkEnv _ _ _).
  rewrite (bind_Ok _ _ _ _ _ (KeyToPageId_run e1 key fd d pb Hdir Hpb)).
  rewrite (bind_Ok _ _ _ _ _ (FetchBucketPage_hit e1 pb fb Hb)).
  set (e2 := mkEnv _ _ _).
  rewrite (bind_Ok _ _ _ _ _
    (bucket_get_Ok e2 fb (λ b, Some (HashTableBucketPage.IsFull b)) b _
       Hbucket eq_refl)).
  rewrite Hfull.
  rewrite (bind_Ok _ _ _ _ _
    (bucket_get_Ok e2 fb (λ b, Some (HashTableBucketPage.Insert cmp key value b)) b _
       Hbucket eq_refl)).
  fold r.
  destruct (bucket_set_pages e2 fb r.2 Hfb) as (e3 & Hset & _ & Hsame3 & Hdata3).
  rewrite (bind_Ok _ _ _ _ _ Hset).
  destruct (UnpinPage_pages e3 (directory_page_id_ ht) false)
    as (r1 & e4 & Hrun1 & _ & Hsame4).
  rewrite (bind_Ok _ _ _ _ _ Hrun1).
  destruct (UnpinPage_pages e4 pb r.1) as (r2 & e5 & Hrun2 & _ & Hsame5).
  rewrite (bind_Ok _ _ _ _ _ Hrun2).
  exists e5. split; [done|]. split.
  - eapply same_pages_but_trans; [|exact Hsame5].
    eapply same_pages_but_trans; [|exact Hsame4]. exact Hsame3.
  - destruct Hsame4 as (_ & _ & _ & H4). destruct Hsame5 as (_ & _ & _ & H5).
    by rewrite H5, H4.
Qed.

Lemma Remove_run ht key value e fd d pb fb b :
  directory_at e (directory_page_id_ ht) fd d →
  HashTableDirectoryPage.GetBucketPageId
    (Z.land (Hash hash_fn key) (HashTableDirectoryPage.GetGlobalDepthMask d)) d = Some pb →
  bucket_at BUCKET_ARRAY_SIZE e pb fb b →
  fb < length (pages_ (bpm e)) →
  let r := HashTableBucketPage.Remove cmp keep_occupied key value b in
  ∃ e', Remove cmp hash_fn BUCKET_ARRAY_SIZE keep_occupied ht key value e
        = Ok r.1 e'
        ∧ same_pages_but (Some fb) e e'
        ∧ data_ (page_at Zeroed (bpm e') fb) = Bucket r.2.
Proof.
  intros [Hd Hdir] Hpb [Hb Hbucket] Hfb r.
  unfold Remove.
  rewrite (bind_Ok _ _ _ _ _ (FetchDirectoryPage_hit ht e fd Hd)).
  set (e1 := mkEnv _ _ _).
  rewrite (bind_Ok _ _ _ _ _ (KeyToPageId_run e1 key fd d pb Hdir Hpb)).
  rewrite (bind_Ok _ _ _ _ _ (FetchBucketPage_hit e1 pb fb Hb)).
  set (e2 := mkEnv _ _ _).
  rewrite (bind_Ok _ _ _ _ _
    (bucket_get_Ok e2 fb
       (λ b, Some (HashTableBucketPage.Remove cmp keep_occupied key value b)) b _
       Hbucket eq_refl)).
  fold r.
  destruct (bucket_set_pages e2 fb r.2 Hfb) as (e3 & Hset & _ & Hsame3 & Hdata3).
  rewrite (bind_Ok _ _ _ _ _ Hset).
  destruct (UnpinPage_pages e3 (directory_page_id_ ht) false)
    as (r1 & e4 & Hrun1 & _ & Hsame4).
  rewrite (bind_Ok _ _ _ _ _ Hrun1).
  destruct (UnpinPage_pages e4 pb r.1) as (r2 & e5 & Hrun2 & _ & Hsame5).
  rewrite (bind_Ok _ _ _ _ _ Hrun2).
  assert (data_ (page_at Zeroed (bpm e5) fb) = Bucket r.2) as Hdata5.
  { destruct Hsame4 as (_ & _ & _ & H4). destruct Hsame5 as (_ & _ & _ & H5).
    by rewrite H5, H4. }
  rewrite (bind_Ok _ _ _ _ _
    (bucket_get_Ok e5 fb (λ b, Some (HashTableBucketPage.IsEmpty b)) r.2 _
       ltac:(by rewrite Hdata5) eq_refl)).
  assert (bind (if HashTableBucketPage.IsEmpty r.2
                then Merge (K:=K) ht key value else ret ())
               (λ _, ret r.1) e5 = Ok r.1 e5) as ->.
  { by destruct (HashTableBucketPage.IsEmpty r.2). }
  exists e5. split; [done|]. split; [|done].
  eapply same_pages_but_trans; [|exact Hsame5].
  eapply same_pages_but_trans; [|exact Hsame4]. exact Hsame3.
Qed.

(** A bucket that is not full has a slot for [Insert] to use. *)
Lemma not_full_first_index (b : HashTableBucketPage.t K V) :
  HashTableBucketPage.IsFull b = false →
  ∃ i, HashTableBucketPage.first_index (λ s, negb (HashTableBucketPage.readable s)) b
       = Some i ∧ i < length b.
Proof.
  induction b as [|s b IH]; [done|]. simpl.
  destruct s as [| |k v]; simpl.
  - intros _. exists 0. split; [done|lia].
  - intros _. exists 0. split; [done|lia].
  - intros Hfull. destruct (IH Hfull) as (i & -> & Hi). exists (S i). split; [done|lia].
Qed.

Lemma bucket_Insert_GetValue (b : HashTableBucketPage.t K V) key value :
  cmp key key = 0%Z → HashTableBucketPage.IsFull b = false →
  value ∈ (HashTableBucketPage.GetValue cmp key
             (HashTableBucketPage.Insert cmp key value b).2).2.
Proof.
  intros Hrefl Hfull. unfold HashTableBucketPage.GetValue, HashTableBucketPage.Insert.
  cbn [snd]. apply list_elem_of_omap.
  destruct (existsb (HashTableBucketPage.matches cmp key value) b) eqn:Hdup.
  - apply existsb_exists in Hdup as (s & Hin & Hs). exists s.
    split; [by apply list_elem_of_In|].
    destruct s as [| |k v]; simpl in Hs; [done..|].
    apply andb_true_iff in Hs as [Hk Hv].
    apply bool_decide_eq_true in Hk, Hv. subst v.
    by rewrite bool_decide_eq_true_2.
  - destruct (not_full_first_index b Hfull) as (i & -> & Hi). cbn [snd].
    exists (HashTableBucketPage.Live key value). split.
    + apply (list_elem_of_lookup_2 _ i). by apply list_lookup_insert_eq.
    + by rewrite bool_decide_eq_true_2.
Qed.

(** X18: [GetValue] on resident pages.  With the directory page and the
    bucket page of the key in the pool, [GetValue] fetches the directory,
    then the bucket the directory names for the low bits of the key's
    hash, returns what the bucket holds for the key, and unpins both; it
    changes no page's bytes, nor the page table, nor the disk. *)
Theorem GetValue_reads_the_bucket_of_the_key ht key e fd d pb fb b :
  directory_at e (directory_page_id_ ht) fd d →
  HashTableDirectoryPage.GetBucketPageId
    (Z.land (Hash hash_fn key) (HashTableDirectoryPage.GetGlobalDepthMask d)) d = Some pb →
  bucket_at BUCKET_ARRAY_SIZE e pb fb b →
  ∃ r1 r2 e',
    GetValue cmp hash_fn BUCKET_ARRAY_SIZE ht key e
    = Ok (HashTableBucketPage.GetValue cmp key b) e'
    ∧ trace e' = trace e ++ [EvFetchPage (directory_page_id_ ht) true;
                             EvFetchPage pb true;
                             EvUnpinPage (directory_page_id_ ht) false r1;
                             EvUnpinPage pb false r2]
    ∧ same_pages_but None e e'.
Proof. apply GetValue_run. Qed.

(** X19: [Insert] without a split, and the value read back.  With the
    directory and the key's bucket resident in two frames and the bucket
    not full, [Insert] does not split: it returns the bucket page's
    answer, stores the bucket, leaves the directory alone, and a following
    [GetValue] of the key finds the value (whether it was just put in or
    was there already). *)
Theorem Insert_then_GetValue_finds_the_value fuel ht key value e fd d pb fb b :
  directory_at e (directory_page_id_ ht) fd d →
  HashTableDirectoryPage.GetBucketPageId
    (Z.land (Hash hash_fn key) (HashTableDirectoryPage.GetGlobalDepthMask d)) d = Some pb →
  bucket_at BUCKET_ARRAY_SIZE e pb fb b →
  HashTableBucketPage.IsFull b = false →
  fb < length (pages_ (bpm e)) → fd ≠ fb → cmp key key = 0%Z →
  let r := HashTableBucketPage.Insert cmp key value b in
  ∃ e' e'' vs,
    Insert cmp hash_fn BUCKET_ARRAY_SIZE keep_occupied (S fuel) ht key value e
    = Ok r.1 e'
    ∧ directory_at e' (directory_page_id_ ht) fd d
    ∧ bucket_at BUCKET_ARRAY_SIZE e' pb fb r.2
    ∧ same_pages_but (Some fb) e e'
    ∧ GetValue cmp hash_fn BUCKET_ARRAY_SIZE ht key e' = Ok (true, vs) e''
    ∧ value ∈ vs.
Proof.
  intros Hdir Hpb Hbucket Hfull Hfb Hne Hrefl r.
  destruct (Insert_run fuel ht key value e fd d pb fb b Hdir Hpb Hbucket Hfull Hfb)
    as (e' & Hrun & Hsame & Hdata).
  fold r in Hrun, Hdata.
  assert (directory_at e' (directory_page_id_ ht) fd d) as Hdir'.
  { eapply directory_at_same; [exact Hsame| |done]. congruence. }
  assert (bucket_at BUCKET_ARRAY_SIZE e' pb fb r.2) as Hbucket'.
  { destruct Hbucket as [Hres _]. destruct Hsame as (Ht & _).
    unfold bucket_at. by rewrite Ht, Hdata. }
  destruct (GetValue_run ht key e' fd d pb fb r.2 Hdir' Hpb Hbucket')
    as (_ & _ & e'' & Hget & _).
  pose proof (bucket_Insert_GetValue b key value Hrefl Hfull) as Hin. fold r in Hin.
  exists e', e'', (HashTableBucketPage.GetValue cmp key r.2).2.
  split_and!; try done.
  rewrite Hget. f_equal. unfold HashTableBucketPage.GetValue in *. cbn [snd] in *.
  f_equal. apply bool_decide_eq_true_2. intros Hnil. rewrite Hnil in Hin.
  by apply elem_of_nil in Hin.
Qed.

(** X20: [Remove] never shrinks the table.  With the directory and the
    key's bucket resident in two frames, [Remove] returns the bucket
    page's answer and stores the bucket; [Merge] does nothing, so also
    when the bucket has become empty the directory (its global depth, its
    local depths and its bucket page ids) is as before, and so are the
    page table and the disk. *)
Theorem Remove_leaves_the_directory ht key value e fd d pb fb b :
  directory_at e (directory_page_id_ ht) fd d →
  HashTableDirectoryPage.GetBucketPageId
    (Z.land (Hash hash_fn key) (HashTableDirectoryPage.GetGlobalDepthMask d)) d = Some pb →
  bucket_at BUCKET_ARRAY_SIZE e pb fb b →
  fb < length (pages_ (bpm e)) → fd ≠ fb →
  let r := HashTableBucketPage.Remove cmp keep_occupied key value b in
  ∃ e',
    Remove cmp hash_fn BUCKET_ARRAY_SIZE keep_occupied ht key value e = Ok r.1 e'
    ∧ directory_at e' (directory_page_id_ ht) fd d
    ∧ bucket_at BUCKET_ARRAY_SIZE e' pb fb r.2
    ∧ same_pages_but (Some fb) e e'.
Proof.
  intros Hdir Hpb Hbucket Hfb Hne r.
  destruct (Remove_run ht key value e fd d pb fb b Hdir Hpb Hbucket Hfb)
    as (e' & Hrun & Hsame & Hdata).
  fold r in Hrun, Hdata.
  assert (directory_at e' (directory_page_id_ ht) fd d) as Hdir'.
  { eapply directory_at_same; [exact Hsame| |done]. congruence. }
  exists e'. split_and!; try done.
  destruct Hbucket as [Hres _]. destruct Hsame as (Ht & _).
  unfold bucket_at. by rewrite Ht, Hdata.
Qed.

(** X21: the directory index of a key is the low [global_depth] bits of
    its 32-bit hash: it lies in [0, 2^global_depth), and for a depth of at
    most [MAX_DEPTH] inside the directory arrays. *)
Theorem KeyToDirectoryIndex_is_low_bits_of_hash e key ptr d :
  as_directory (data_ (page_at Zeroed (bpm e) ptr)) = Some d →
  (0 ≤ HashTableDirectoryPage.global_depth_ d)%Z →
  let idx := (Hash hash_fn key `mod` 2 ^ HashTableDirectoryPage.global_depth_ d)%Z in
  KeyToDirectoryIndex hash_fn key ptr e = Ok idx e
  ∧ (0 ≤ idx < 2 ^ HashTableDirectoryPage.global_depth_ d)%Z
  ∧ ((HashTableDirectoryPage.global_depth_ d ≤ HashTableDirectoryPage.MAX_DEPTH)%Z →
     HashTableDirectoryPage.in_bounds idx = true).
Proof.
  intros Hd Hdepth idx.
  assert (0 < 2 ^ HashTableDirectoryPage.global_depth_ d)%Z as Hpos
    by (by apply Z.pow_pos_nonneg).
  pose proof (Z.mod_pos_bound (Hash hash_fn key)
                (2 ^ HashTableDirectoryPage.global_depth_ d) Hpos) as Hidx.
  split; [|split].
  - rewrite (KeyToDirectoryIndex_run e key ptr d Hd). f_equal.
    unfold HashTableDirectoryPage.GetGlobalDepthMask.
    rewrite Z.shiftl_1_l, Z.sub_1_r, <- Z.ones_equiv. by apply Z.land_ones.
  - done.
  - intros Hmax. unfold HashTableDirectoryPage.in_bounds.
    apply bool_decide_eq_true_2. split; [lia|].
    unfold HashTableDirectoryPage.MAX_DEPTH,
      HashTableDirectoryPage.DIRECTORY_ARRAY_SIZE in *.
    assert (2 ^ HashTableDirectoryPage.global_depth_ d ≤ 2 ^ 9)%Z
      by (apply Z.pow_le_mono_r; lia).
    fold idx in Hidx. lia.
Qed.

(** X22: the constructor on a fresh pool.  It asks for three pages and
    checks no result: with no frame the first [NewPage] returns null and
    the directory is written through it; with one or two frames a bucket's
    [NewPage] fails and its page id is read unassigned; with three frames
    or more the table gets pages 0 (directory, global depth 1), 1 and 2
    (empty buckets at local depth 1), all left unpinned, and the disk is
    not touched. *)
Theorem new_needs_three_frames (pool_size : nat)
    (dm : DiskManager.t (PageData (K:=K) (V:=V))) :
  let e := mkEnv (BufferPoolManagerInstance.new Zeroed pool_size 1 0) dm [] in
  match pool_size with
  | 0 => ∃ e', new e = Fault NullPointer e'
  | 1 | 2 => ∃ e', new e = Fault Uninitialised e'
  | _ =>
      ∃ e', new e = Ok (ExtendibleHashTable.mk 0) e'
            ∧ directory_at e' 0 0 (TableStates.initial_directory 0 1 2)
            ∧ bucket_at BUCKET_ARRAY_SIZE e' 1 1 (HashTableBucketPage.zeroed BUCKET_ARRAY_SIZE)
            ∧ bucket_at BUCKET_ARRAY_SIZE e' 2 2 (HashTableBucketPage.zeroed BUCKET_ARRAY_SIZE)
            ∧ disk e' = dm
            ∧ (∀ f, f < 3 → pin_count_ (page_at Zeroed (bpm e') f) = 0%Z)
            ∧ trace e' = [EvNewPage (Some 0%Z); EvNewPage (Some 1%Z); EvNewPage (Some 2%Z);
                          EvUnpinPage 1 false true; EvUnpinPage 2 false true;
                          EvUnpinPage 0 true true]
  end.
Proof.
  intros e. subst e. destruct pool_size as [|[|[|k]]].
  - eexists. vm_compute. reflexivity.
  - eexists. vm_compute. reflexivity.
  - eexists. vm_compute. reflexivity.
  - eexists. split; [vm_compute; reflexivity|].
    split_and!; try (vm_compute; reflexivity).
    + split; vm_compute; reflexivity.
    + split; vm_compute; reflexivity.
    + split; vm_compute; reflexivity.
    + intros f Hf. destruct f as [|[|[|f]]]; [vm_compute; reflexivity..|lia].
Qed.

End table_facts.

(** * Runs of the hash table, continued *)

Section table_extra_runs.
Import BufferPoolManagerInstance ExtendibleHashTable Residency TableScenario TableStates.

(** A fresh table, key 4 inserted: [GetValue] of key 4 returns [40]. *)
Lemma GetValue_reads_the_bucket_of_the_key_witness :
  let ht := (state_after [4%Z]).1 in
  let e := (state_after [4%Z]).2 in
  ∃ e', ExtendibleHashTable.GetValue IntComparator hash_fn BUCKET_ARRAY_SIZE ht 4%Z e
        = Ok (true, [40%Z]) e'.
Proof.
  intros ht e.
  destruct (GetValue_reads_the_bucket_of_the_key IntComparator hash_fn BUCKET_ARRAY_SIZE
              ht 4%Z e 0 (default HashTableDirectoryPage.zeroed (directory_of ht e))
              1%Z 1 (default [] (bucket_of 1 e)))
    as (_ & _ & e' & Hrun & _).
  - split; vm_compute; reflexivity.
  - vm_compute; reflexivity.
  - split; vm_compute; reflexivity.
  - exists e'. rewrite Hrun. f_equal; vm_compute; reflexivity.
Defined.

(** A fresh table: inserting [(4, 40)] succeeds without a split and
    [GetValue] of key 4 finds 40. *)
Lemma Insert_then_GetValue_finds_the_value_witness :
  let ht := (state_after []).1 in
  let e := (state_after []).2 in
  ∃ e' e'' vs,
    ExtendibleHashTable.Insert IntComparator hash_fn BUCKET_ARRAY_SIZE false 1 ht
      4%Z 40%Z e = Ok true e'
    ∧ ExtendibleHashTable.GetValue IntComparator hash_fn BUCKET_ARRAY_SIZE ht 4%Z e'
      = Ok (true, vs) e''
    ∧ 40%Z ∈ vs.
Proof.
  intros ht e.
  destruct (Insert_then_GetValue_finds_the_value IntComparator hash_fn BUCKET_ARRAY_SIZE
              false 0 ht 4%Z 40%Z e 0
              (default HashTableDirectoryPage.zeroed (directory_of ht e))
              1%Z 1 (default [] (bucket_of 1 e)))
    as (e' & e'' & vs & Hrun & _ & _ & _ & Hget & Hin).
  - split; vm_compute; reflexivity.
  - vm_compute; reflexivity.
  - split; vm_compute; reflexivity.
  - vm_compute; reflexivity.
  - vm_compute; lia.
  - lia.
  - vm_compute; reflexivity.
  - exists e', e'', vs. split; [|split; [exact Hget | exact Hin]].
    rewrite Hrun. f_equal; vm_compute; reflexivity.
Defined.

(** A table that holds only [(4, 40)]: removing the pair empties its
    bucket and leaves the directory, of global depth 1, as it was. *)
Lemma Remove_leaves_the_directory_witness :
  let ht := (state_after [4%Z]).1 in
  let e := (state_after [4%Z]).2 in
  ∃ e',
    ExtendibleHashTable.Remove IntComparator hash_fn BUCKET_ARRAY_SIZE false ht
      4%Z 40%Z e = Ok true e'
    ∧ bucket_at BUCKET_ARRAY_SIZE e' 1 1
        [HashTableBucketPage.Vacant; HashTableBucketPage.Vacant]
    ∧ directory_at e' 0 0 (initial_directory 0 1 2).
Proof.
  intros ht e.
  destruct (Remove_leaves_the_directory IntComparator hash_fn BUCKET_ARRAY_SIZE
              false ht 4%Z 40%Z e 0
              (default HashTableDirectoryPage.zeroed (directory_of ht e))
              1%Z 1 (default [] (bucket_of 1 e)))
    as (e' & Hrun & Hdir & Hbucket & _).
  - split; vm_compute; reflexivity.
  - vm_compute; reflexivity.
  - split; vm_compute; reflexivity.
  - vm_compute; lia.
  - lia.
  - exists e'. split; [|split].
    + rewrite Hrun. f_equal; vm_compute; reflexivity.
    + destruct Hbucket as [Hres Hb]. split; [exact Hres|]. rewrite Hb.
      f_equal; vm_compute; reflexivity.
    + destruct Hdir as [Hres Hd]. split; [exact Hres|]. rewrite Hd.
      f_equal; vm_compute; reflexivity.
Defined.

(** A fresh table has global depth 1: key 5 has directory index 1. *)
Lemma KeyToDirectoryIndex_is_low_bits_of_hash_witness :
  let e := (state_after []).2 in
  KeyToDirectoryIndex hash_fn 5%Z 0 e = Ok 1%Z e.
Proof.
  intros e.
  destruct (KeyToDirectoryIndex_is_low_bits_of_hash hash_fn e 5%Z 0
              (default HashTableDirectoryPage.zeroed
                 (directory_of (state_after []).1 e)))
    as (Hrun & _).
  - vm_compute; reflexivity.
  - vm_compute. discriminate.
  - rewrite Hrun. f_equal; vm_compute; reflexivity.
Defined.

End table_extra_runs.
